(** * Clustering of near-duplicate line segments

    A shallow embedding of [Class05_classic_CV/remove_similar_lines.py] and
    the properties of its geometry primitives, its five distance metrics,
    the pairwise distance matrix, the greedy grouping and the reduction.

    Numbers.  The Python code computes on [float]s.  The program is embedded
    twice.  The whole of it is embedded over exact real numbers ([R]), with
    the one non-finite value the code itself produces, [float('inf')], kept
    as [PInf] in the type [xreal] of distances and thresholds: rounding,
    overflow and NaN are outside that embedding.  The properties settled on
    it are either about the control flow (which pairs are measured, what is
    grouped with what, which segment is kept), and hold whatever the numbers
    are, or are stated so that they survive rounding; its lemmas about exact
    values (a unit normal, a remainder strictly below pi) are facts of the
    idealisation only.  The three geometry primitives are embedded once
    more over binary64 numbers ([Binary64]), where a square can underflow or
    overflow and a quotient is rounded; what the primitives themselves
    guarantee is proved there.

    Exceptions.  Every function returns in the error monad [result]:
    [OK v] when the Python function returns [v], [Raise e] when it raises.
    Python's own raising primitives are written out: [/] and [%] raise
    [ZeroDivisionError] on a zero divisor, [math.sqrt] raises on a negative
    argument, [**] raises [OverflowError] out of range, indexing raises
    [IndexError] out of range, [min] and [max] raise on an empty sequence. *)

From Stdlib Require Import Reals Lra Lia Sorted.
From Stdlib Require Floats.
From stdpp Require Import base list gmap strings.

#[local] Open Scope R_scope.

(** ** Exceptions and the error monad *)

Inductive exn : Type :=
  | ZeroDivisionError
      (* float division by zero, float modulo by zero *)
  | MathDomainError
      (* ValueError("math domain error"), from math.sqrt *)
  | PointsRequired (method : string)
      (* ValueError: for method '<method>' the source points of the lines
         are needed *)
  | UnknownMethod (method : string)
      (* ValueError(f"unknown method: {method}") *)
  | IndexError
      (* list or array index out of range *)
  | EmptySequence
      (* ValueError: min() / max() of an empty sequence *)
  | OverflowError.
      (* OverflowError(34, 'Numerical result out of range'), from [**] on
         binary64 numbers *)

Inductive result (A : Type) : Type :=
  | OK (a : A)
  | Raise (e : exn).
Arguments OK {A} a.
Arguments Raise {A} e.

#[global] Instance result_ret : MRet result := λ A a, OK a.
#[global] Instance result_bind : MBind result :=
  λ A B f m, match m with OK a => f a | Raise e => Raise e end.
#[global] Instance result_fmap : FMap result :=
  λ A B f m, match m with OK a => OK (f a) | Raise e => Raise e end.

(** [for x in xs: s = body s x], stopping at the first exception. *)
Fixpoint for_in {S X : Type} (xs : list X) (s : S) (body : S → X → result S)
  : result S :=
  match xs with
  | [] => OK s
  | x :: xs' => s' ← body s x; for_in xs' s' body
  end.

(** [xs[i]] on a Python list. *)
Definition getitem {A : Type} (xs : list A) (i : nat) : result A :=
  match xs !! i with
  | Some x => OK x
  | None => Raise IndexError
  end.

(** ** Numbers *)

#[global] Instance Rlt_decision (x y : R) : Decision (x < y) := Rlt_dec x y.
#[global] Instance Rle_decision (x y : R) : Decision (x <= y) := Rle_dec x y.
#[global] Instance Rgt_decision (x y : R) : Decision (x > y) := Rgt_dec x y.
#[global] Instance Req_decision : EqDecision R := Req_dec_T.

(** Distances and thresholds: a finite float or [float('inf')]. *)
Inductive xreal : Type :=
  | Fin (r : R)
  | PInf.

(** [d <= t] on floats that may be [+inf]. *)
Definition xle (d t : xreal) : bool :=
  match d, t with
  | Fin a, Fin b => bool_decide (a <= b)
  | _, PInf => true
  | PInf, Fin _ => false
  end.

(** [x / y] *)
Definition py_div (x y : R) : result R :=
  if decide (y = 0) then Raise ZeroDivisionError else OK (x / y).

(** [x % y]: the remainder has the sign of the divisor, [x - y*floor(x/y)]. *)
Definition py_mod (x y : R) : result R :=
  if decide (y = 0) then Raise ZeroDivisionError
  else OK (x - y * IZR (Int_part (x / y))).

(** [math.sqrt(x)] *)
Definition math_sqrt (x : R) : result R :=
  if decide (x < 0) then Raise MathDomainError else OK (sqrt x).

(** [math.atan2(y, x)]: the angle of the vector (x, y), in (-pi, pi]. *)
Definition math_atan2 (y x : R) : R :=
  if decide (x > 0) then atan (y / x)
  else if decide (x < 0) then
    (if decide (y < 0) then atan (y / x) - PI else atan (y / x) + PI)
  else if decide (y > 0) then PI / 2
  else if decide (y < 0) then - (PI / 2)
  else 0.

(** The builtins [min(a, b)] and [max(a, b)]: the first argument is kept
    unless the second is strictly smaller (larger). *)
Definition py_min (a b : R) : R := if decide (b < a) then b else a.
Definition py_max (a b : R) : R := if decide (b > a) then b else a.

(** [min(xs)] over a sequence: first element, then a left-to-right scan. *)
Definition py_min_seq (xs : list R) : result R :=
  match xs with
  | [] => Raise EmptySequence
  | x :: xs' => OK (foldl py_min x xs')
  end.

(** [max(xs, key=key)]: the first element with the largest key; [key] is
    called once per element, in order. *)
Fixpoint max_key_scan {A : Type} (key : A → result R) (best : A) (kbest : R)
    (xs : list A) : result A :=
  match xs with
  | [] => OK best
  | x :: xs' =>
      k ← key x;
      if decide (k > kbest) then max_key_scan key x k xs'
      else max_key_scan key best kbest xs'
  end.

Definition py_max_key {A : Type} (xs : list A) (key : A → result R)
  : result A :=
  match xs with
  | [] => Raise EmptySequence
  | x :: xs' => k ← key x; max_key_scan key x k xs'
  end.

(** ** Geometry primitives *)

(** A segment [(x1, y1, x2, y2)], a canonical line [(A, B, C)] and a point
    [(x, y)], as the tuples the code passes around. *)
Abbreviation segment := (R * R * R * R)%type.
Abbreviation canonical := (R * R * R)%type.
Abbreviation point := (R * R)%type.

Definition line_to_canonical (line : segment) : result canonical :=
  let '(x1, y1, x2, y2) := line in
  let A := y2 - y1 in
  let B := x1 - x2 in
  let C := x2 * y1 - x1 * y2 in
  norm ← math_sqrt (A ^ 2 + B ^ 2);
  if decide (norm > 0) then
    A' ← py_div A norm;
    B' ← py_div B norm;
    C' ← py_div C norm;
    OK (A', B', C')
  else OK (A, B, C).

Definition point_to_line_distance (p : point) (line : canonical) : result R :=
  let '(x, y) := p in
  let '(A, B, C) := line in
  d ← math_sqrt (A ^ 2 + B ^ 2);
  py_div (Rabs (A * x + B * y + C)) d.

Definition line_center (line : segment) : point :=
  let '(x1, y1, x2, y2) := line in
  ((x1 + x2) / 2, (y1 + y2) / 2).

Definition line_angle (line : canonical) : result R :=
  let '(A, B, C) := line in
  if decide (B = 0) then OK (PI / 2)
  else py_mod (math_atan2 (- A) B) PI.

(** ** The distance metric *)

(** [min(abs(angle1 - angle2), math.pi - abs(angle1 - angle2))] *)
Definition angle_difference (angle1 angle2 : R) : R :=
  py_min (Rabs (angle1 - angle2)) (PI - Rabs (angle1 - angle2)).

(** One pass of the Hausdorff loop:
    [for p in points: min_dist = min(point_to_line_distance(p, line) for q in others);
                      max_min_dist = max(max_min_dist, min_dist)] *)
Definition hausdorff_pass (points others : list point) (line : canonical)
    (max_min_dist : R) : result R :=
  for_in points max_min_dist (λ max_min_dist p,
    dists ← mapM (λ _ : point, point_to_line_distance p line) others;
    min_dist ← py_min_seq dists;
    OK (py_max max_min_dist min_dist)).

Definition lines_distance (line1_canonical line2_canonical : canonical)
    (line1_points line2_points : option segment) (method : string)
  : result xreal :=
  let '(A1, B1, C1) := line1_canonical in
  let '(A2, B2, C2) := line2_canonical in
  if decide (method = "parallel") then
    let dot_product := Rabs (A1 * A2 + B1 * B2) in
    if decide (dot_product < 0.95) then OK PInf
    else OK (Fin (Rabs (C2 - C1)))
  else if decide (method = "angle") then
    angle1 ← line_angle line1_canonical;
    angle2 ← line_angle line2_canonical;
    let angle_diff := angle_difference angle1 angle2 in
    OK (Fin (angle_diff * 100))
  else if decide (method = "center") then
    match line1_points, line2_points with
    | Some line1_points, Some line2_points =>
        let center1 := line_center line1_points in
        let center2 := line_center line2_points in
        let dx := center1.1 - center2.1 in
        let dy := center1.2 - center2.2 in
        Fin <$> math_sqrt (dx ^ 2 + dy ^ 2)
    | _, _ => Raise (PointsRequired "center")
    end
  else if decide (method = "combined") then
    match line1_points, line2_points with
    | Some line1_points, Some line2_points =>
        angle1 ← line_angle line1_canonical;
        angle2 ← line_angle line2_canonical;
        let angle_diff := angle_difference angle1 angle2 in
        let center1 := line_center line1_points in
        let center2 := line_center line2_points in
        center_distance ←
          math_sqrt ((center1.1 - center2.1) ^ 2 + (center1.2 - center2.2) ^ 2);
        dist1_to_2 ← point_to_line_distance center1 line2_canonical;
        dist2_to_1 ← point_to_line_distance center2 line1_canonical;
        let line_distance := (dist1_to_2 + dist2_to_1) / 2 in
        let combined :=
          angle_diff * 50 + center_distance * 0.5 + line_distance * 1.0 in
        OK (Fin combined)
    | _, _ => Raise (PointsRequired "combined")
    end
  else if decide (method = "hausdorff") then
    match line1_points, line2_points with
    | Some (x1, y1, x2, y2), Some (u1, v1, u2, v2) =>
        let points1 := [(x1, y1); (x2, y2)] in
        let points2 := [(u1, v1); (u2, v2)] in
        let max_min_dist := 0 in
        max_min_dist ← hausdorff_pass points1 points2 line2_canonical max_min_dist;
        max_min_dist ← hausdorff_pass points2 points1 line1_canonical max_min_dist;
        OK (Fin max_min_dist)
    | _, _ => Raise (PointsRequired "hausdorff")
    end
  else Raise (UnknownMethod method).

(** [method in ['center', 'combined', 'hausdorff']] *)
Definition needs_points (method : string) : bool :=
  bool_decide (method ∈ ["center"; "combined"; "hausdorff"]).

(** The five method tags the distance function knows. *)
Definition valid_method (method : string) : Prop :=
  method ∈ ["parallel"; "angle"; "center"; "combined"; "hausdorff"].

(** The text of the [ValueError]s of [lines_distance]. *)
Definition value_error_message (e : exn) : option string :=
  match e with
  | PointsRequired method =>
      Some ("Для метода '" +:+ method +:+ "' нужны исходные точки линий")
  | UnknownMethod method => Some ("Неизвестный метод: " +:+ method)
  | _ => None
  end.

(** ** The pairwise distance matrix *)

(** A two-dimensional array as a list of rows. *)
Abbreviation matrix := (list (list xreal)).

(** [np.zeros((n, m))] *)
Definition np_zeros (n m : nat) : matrix := replicate n (replicate m (Fin 0)).

(** [a[i, j]] *)
Definition mat_get (a : matrix) (i j : nat) : result xreal :=
  row ← getitem a i; getitem row j.

(** [a[i, j] = v] *)
Definition mat_set (a : matrix) (i j : nat) (v : xreal) : result matrix :=
  row ← getitem a i;
  if decide (j < length row)%nat then OK (<[i := <[j := v]> row]> a)
  else Raise IndexError.

(** [range(a, b)] *)
Definition range (a b : nat) : list nat := seq a (b - a).

Definition calculate_line_distances (lines : list segment) (method : string)
  : result matrix :=
  let n := length lines in
  let distance_matrix := np_zeros n n in
  canonical_lines ← mapM line_to_canonical lines;
  for_in (range 0 n) distance_matrix (λ distance_matrix i,
    for_in (range (i + 1) n) distance_matrix (λ distance_matrix j,
      ci ← getitem canonical_lines i;
      cj ← getitem canonical_lines j;
      points_i ← (if needs_points method then Some <$> getitem lines i else OK None);
      points_j ← (if needs_points method then Some <$> getitem lines j else OK None);
      distance ← lines_distance ci cj points_i points_j method;
      distance_matrix ← mat_set distance_matrix i j distance;
      mat_set distance_matrix j i distance)).

(** ** Clustering *)

(** The inner loop of [find_similar_lines] for the founder [i]: every [j]
    not yet visited and within the threshold of [i] joins the group. *)
Definition grow_group (distance_matrix : matrix) (threshold : xreal)
    (n i : nat) (visited : gset nat) (group : list nat)
  : result (gset nat * list nat) :=
  for_in (range 0 n) (visited, group) (λ '(visited, group) j,
    if decide (j ∉ visited) then
      d ← mat_get distance_matrix i j;
      if xle d threshold then OK (visited ∪ {[j]}, group ++ [j])
      else OK (visited, group)
    else OK (visited, group)).

(** The outer loop, on a given distance matrix. *)
Definition group_loop (distance_matrix : matrix) (threshold : xreal) (n : nat)
  : result (gset nat * list (list nat)) :=
  for_in (range 0 n) (∅, []) (λ '(visited, groups) i,
    if decide (i ∈ visited) then OK (visited, groups)
    else
      let group := [i] in
      let visited := visited ∪ {[i]} in
      '(visited, group) ← grow_group distance_matrix threshold n i visited group;
      OK (visited, groups ++ [group])).

Definition find_similar_lines (lines : list segment) (threshold : xreal)
    (method : string) : result (list (list nat)) :=
  distance_matrix ← calculate_line_distances lines method;
  let n := length lines in
  '(_, groups) ← group_loop distance_matrix threshold n;
  OK groups.

(** ** Reduction *)

Definition line_length (line : segment) : result R :=
  let '(x1, y1, x2, y2) := line in
  math_sqrt ((x2 - x1) ^ 2 + (y2 - y1) ^ 2).

Definition remove_similar_lines (lines : list segment) (threshold : xreal)
    (method : string) (keep_longest : bool) : result (list segment) :=
  groups ← find_similar_lines lines threshold method;
  for_in groups [] (λ unique_lines group,
    if keep_longest then
      members ← mapM (getitem lines) group;
      longest_line ← py_max_key members line_length;
      OK (unique_lines ++ [longest_line])
    else
      first ← getitem group 0;
      line ← getitem lines first;
      OK (unique_lines ++ [line])).

(** * The numeric primitives on binary64

    The same three geometry functions once more, on the numbers Python
    really computes with: a [float] is an IEEE 754 binary64 value, here
    [PrimFloat.float], whose [+], [-], [*], [/] and [sqrt] round to nearest
    even and never raise.  What raises is Python's own: [/] and [%] on a zero
    divisor, [math.sqrt] on a negative argument, [**] on a result that is out
    of range.

    CPython hands [x ** 2] and [math.atan2] to the C library, whose results
    IEEE 754 does not fix bit for bit; the two functions are parameters of
    the model. *)

Module Binary64.
Import PrimFloat SpecFloat FloatOps.
#[local] Open Scope float_scope.

(** [math.pi], the binary64 number nearest to pi. *)
Definition math_pi : float := 0x1.921fb54442d18p+1.

(** [x / y] *)
Definition py_div (x y : float) : result float :=
  if y =? 0 then Raise ZeroDivisionError else OK (x / y).

(** [math.sqrt(x)] *)
Definition math_sqrt (x : float) : result float :=
  if x <? 0 then Raise MathDomainError else OK (sqrt x).

(** C's [fmod(x, y)]: the exact remainder [x - n*y], [n] being [x / y] with
    its fraction cut off; it has the sign of [x], a magnitude below [|y|],
    and is always representable. *)
Definition fmod (x y : float) : float :=
  match Prim2SF x, Prim2SF y with
  | S754_nan, _ | _, S754_nan => nan
  | S754_infinity _, _ => nan
  | _, S754_zero _ => nan
  | S754_zero _, _ => x
  | S754_finite _ _ _, S754_infinity _ => x
  | S754_finite sx mx ex, S754_finite _ my ey =>
      let e := Z.min ex ey in
      let r := ((Z.pos mx * 2 ^ (ex - e)) mod (Z.pos my * 2 ^ (ey - e)))%Z in
      if (r =? 0)%Z then (if sx then neg_zero else zero)
      else SF2Prim (binary_normalize prec emax (cond_Zopp sx r) e false)
  end.

(** [x % y]: CPython's [float_rem], which gives a non-zero remainder the
    sign of the divisor by adding the divisor to it. *)
Definition py_mod (x y : float) : result float :=
  if y =? 0 then Raise ZeroDivisionError
  else
    let m := fmod x y in
    if m =? 0 then OK (if y <? 0 then neg_zero else zero)
    else if Bool.eqb (y <? 0) (m <? 0) then OK m
    else OK (m + y).

Section libm.
(** C's [pow(x, y)], with whether it set [errno] to [ERANGE]. *)
Variable pow : float → float → float * bool.
(** [math.atan2(y, x)] *)
Variable math_atan2 : float → float → float.

(** [x ** 2]: CPython's [float_pow] at the exponent 2.  It answers nan,
    infinities, zeros and 1 itself, hands the magnitude of any other base to
    [pow], and raises [OverflowError] when the result is infinite or when
    [pow] reported a range error on a non-zero result. *)
Definition py_pow2 (x : float) : result float :=
  if is_nan x then OK x
  else if is_infinity x then OK infinity
  else if x =? 0 then OK zero
  else if abs x =? 1 then OK one
  else
    let '(ix, erange) := pow (abs x) 2 in
    if (if erange then negb (ix =? 0) else is_infinity ix)
    then Raise OverflowError
    else OK ix.

Definition line_to_canonical (line : float * float * float * float)
  : result (float * float * float) :=
  let '(x1, y1, x2, y2) := line in
  let A := y2 - y1 in
  let B := x1 - x2 in
  let C := x2 * y1 - x1 * y2 in
  A2 ← py_pow2 A;
  B2 ← py_pow2 B;
  norm ← math_sqrt (A2 + B2);
  if 0 <? norm then
    A ← py_div A norm;
    B ← py_div B norm;
    C ← py_div C norm;
    OK (A, B, C)
  else OK (A, B, C).

Definition point_to_line_distance (point : float * float)
    (line : float * float * float) : result float :=
  let '(x, y) := point in
  let '(A, B, C) := line in
  let numerator := abs (A * x + B * y + C) in
  A2 ← py_pow2 A;
  B2 ← py_pow2 B;
  norm ← math_sqrt (A2 + B2);
  py_div numerator norm.

Definition line_angle (line : float * float * float) : result float :=
  let '(A, B, C) := line in
  if B =? 0 then OK (math_pi / 2)
  else py_mod (math_atan2 (- A) B) math_pi.

End libm.
End Binary64.

(** * Specification vocabulary *)

(** ** Lines and segments *)

(** A canonical line whose normal vector (A, B) is zero. *)
Definition degenerate (l : canonical) : Prop := l.1.1 = 0 ∧ l.1.2 = 0.

(** Both endpoints of the segment coincide. *)
Definition zero_length (s : segment) : Prop :=
  let '(x1, y1, x2, y2) := s in x1 = x2 ∧ y1 = y2.


(** The same segment with its endpoints in the other order. *)
Definition reverse_segment (s : segment) : segment :=
  let '(x1, y1, x2, y2) := s in (x2, y2, x1, y1).

(** The same line with the opposite normal: the canonical form of the
    reversed segment. *)
Definition negate_line (l : canonical) : canonical :=
  let '(A, B, C) := l in (- A, - B, - C).

(** The Euclidean distance between the two endpoints. *)
Definition segment_length (s : segment) : R :=
  let '(x1, y1, x2, y2) := s in sqrt ((x2 - x1) ^ 2 + (y2 - y1) ^ 2).

(** The value [line_to_canonical] returns. *)
Definition canonical_of (line : segment) : canonical :=
  let '(x1, y1, x2, y2) := line in
  let A := y2 - y1 in
  let B := x1 - x2 in
  let C := x2 * y1 - x1 * y2 in
  let norm := sqrt (A ^ 2 + B ^ 2) in
  if decide (norm > 0) then (A / norm, B / norm, C / norm) else (A, B, C).

(** ** Distances *)

(** What a distance under method [m] can be: a non-negative real, or
    [+inf], which only 'parallel' produces. *)
Definition distance_value (m : string) (d : xreal) : Prop :=
  match d with
  | Fin r => 0 <= r
  | PInf => m = "parallel"
  end.

(** The maximum of the four endpoint-to-line distances: the 'hausdorff'
    method in the words of the specification, without the inner [min]. *)
Definition hausdorff_max_of_four (l1 l2 : canonical) (s1 s2 : segment)
  : result R :=
  let '(x1, y1, x2, y2) := s1 in
  let '(u1, v1, u2, v2) := s2 in
  d1 ← point_to_line_distance (x1, y1) l2;
  d2 ← point_to_line_distance (x2, y2) l2;
  d3 ← point_to_line_distance (u1, v1) l1;
  d4 ← point_to_line_distance (u2, v2) l1;
  OK (Rmax (Rmax d1 d2) (Rmax d3 d4)).

(** The two 'hausdorff' loops of the code unrolled: four distances folded
    into the running maximum that starts at 0. *)
Definition hausdorff_unrolled (l1 l2 : canonical) (s1 s2 : segment)
  : result xreal :=
  let '(x1, y1, x2, y2) := s1 in
  let '(u1, v1, u2, v2) := s2 in
  d1 ← point_to_line_distance (x1, y1) l2;
  d2 ← point_to_line_distance (x2, y2) l2;
  d3 ← point_to_line_distance (u1, v1) l1;
  d4 ← point_to_line_distance (u2, v2) l1;
  OK (Fin (Rmax (Rmax (Rmax (Rmax 0 d1) d2) d3) d4)).

(** ** Matrices *)

(** The value a computation returns, if it returns. *)
Definition returned {A : Type} (m : result A) : option A :=
  match m with OK a => Some a | Raise _ => None end.

(** The entry at row [i], column [j], when both are in range. *)
Definition entry (a : matrix) (i j : nat) : option xreal :=
  row ← a !! i; row !! j.

(** An n-by-n matrix. *)
Definition square (n : nat) (a : matrix) : Prop :=
  length a = n ∧ Forall (λ row, length row = n) a.

(** The distance the matrix builder computes for the pair [(i, j)]. *)
Definition pair_distance (lines : list segment) (method : string)
    (i j : nat) : result xreal :=
  ci ← getitem (canonical_of <$> lines) i;
  cj ← getitem (canonical_of <$> lines) j;
  points_i ← (if needs_points method then Some <$> getitem lines i else OK None);
  points_j ← (if needs_points method then Some <$> getitem lines j else OK None);
  lines_distance ci cj points_i points_j method.

(** The body of the two nested loops of [calculate_line_distances]. *)
Definition fill_pair (lines : list segment) (method : string) (i : nat)
    (distance_matrix : matrix) (j : nat) : result matrix :=
  distance ← pair_distance lines method i j;
  distance_matrix ← mat_set distance_matrix i j distance;
  mat_set distance_matrix j i distance.

(** ** Groups *)

(** [distance_matrix[i, j] <= threshold] *)
Definition near (distance_matrix : matrix) (threshold : xreal) (i j : nat)
  : bool :=
  match mat_get distance_matrix i j with
  | OK d => xle d threshold
  | Raise _ => false
  end.

(** The candidates that join the founder [i] when the indices in [visited]
    are taken: membership looks at the distance to [i] alone. *)
Definition joiners (distance_matrix : matrix) (threshold : xreal) (i : nat)
    (visited : list nat) (candidates : list nat) : list nat :=
  filter (λ j, (j ∉ visited) ∧ near distance_matrix threshold i j) candidates.

(** [g] is the group founded on the first index outside the earlier groups
    [pre]: the founder [i], then, in ascending order, every [j] outside
    [pre] that is within the threshold of [i] itself. *)
Definition founded (distance_matrix : matrix) (threshold : xreal) (n : nat)
    (pre : list (list nat)) (g : list nat) : Prop :=
  ∃ i : nat,
    (i < n)%nat
    ∧ (i ∉ concat pre)
    ∧ (∀ i', (i' < i)%nat → i' ∈ concat pre)
    ∧ g = i :: joiners distance_matrix threshold i (i :: concat pre) (seq 0 n).

(** The state of the outer loop of [find_similar_lines] before it looks at
    index [t]. *)
Definition grouped (distance_matrix : matrix) (threshold : xreal) (n : nat)
    (t : nat) (visited : gset nat) (groups : list (list nat)) : Prop :=
  visited = list_to_set (concat groups)
  ∧ NoDup (concat groups)
  ∧ (∀ k, k ∈ concat groups → (k < n)%nat)
  ∧ (∀ k, (k < t)%nat → k ∈ concat groups)
  ∧ (∀ a g, groups !! a = Some g →
            founded distance_matrix threshold n (take a groups) g).

(** ** Representatives *)

(** [r] sits at position [pos] of [xs], no element has a larger key, and
    every element before [pos] has a strictly smaller key. *)
Definition first_max {A : Type} (f : A → R) (xs : list A) (pos : nat) (r : A)
  : Prop :=
  xs !! pos = Some r
  ∧ (∀ x, x ∈ xs → f x <= f r)
  ∧ (∀ pos' x, (pos' < pos)%nat → xs !! pos' = Some x → f x < f r).

(** The segment kept for a group: with [keep_longest] the first member of
    maximal length, otherwise the first member. *)
Definition representative (lines : list segment) (keep_longest : bool)
    (group : list nat) (r : segment) : Prop :=
  if keep_longest then
    ∃ pos i, group !! pos = Some i ∧ lines !! i = Some r
      ∧ (∀ j s, j ∈ group → lines !! j = Some s →
                segment_length s <= segment_length r)
      ∧ (∀ pos' j s, (pos' < pos)%nat → group !! pos' = Some j →
                     lines !! j = Some s →
                     segment_length s < segment_length r)
  else ∃ i, head group = Some i ∧ lines !! i = Some r.

(** The body of the loop of [remove_similar_lines]. *)
Definition keep_one (lines : list segment) (keep_longest : bool)
    (unique_lines : list segment) (group : list nat) : result (list segment) :=
  if keep_longest then
    members ← mapM (getitem lines) group;
    longest_line ← py_max_key members line_length;
    OK (unique_lines ++ [longest_line])
  else
    first ← getitem group 0;
    line ← getitem lines first;
    OK (unique_lines ++ [line]).

(** ** A worked example *)

(** Three horizontal segments at heights 0, 1 and 9, of lengths 1, 3, 1. *)
Definition example_lines : list segment :=
  [(0, 0, 1, 0); (0, 1, 3, 1); (0, 9, 1, 9)].

(** Their 'parallel' distance matrix: the differences of the heights. *)
Definition example_matrix : matrix :=
  [ [Fin 0; Fin (Rabs (1 - 0)); Fin (Rabs (9 - 0))];
    [Fin (Rabs (1 - 0)); Fin 0; Fin (Rabs (9 - 1))];
    [Fin (Rabs (9 - 0)); Fin (Rabs (9 - 1)); Fin 0] ].

(** The 'combined' distance of two horizontal segments over the same
    x-range at heights [y] and [y']: no angle, half the offset for the
    centres, the offset for the lines. *)
Definition combined_offset (y y' : R) : xreal :=
  Fin (0 * 50 + Rabs (y' - y) * 0.5
       + (Rabs (y' - y) + Rabs (y' - y)) / 2 * 1.0).

(** The end-to-end scenario of the specification: two near-duplicates and a
    distant third segment. *)
Definition scenario_lines : list segment :=
  [(0, 0, 10, 0); (0, 0.5, 10, 0.5); (0, 20, 10, 20)].

Definition scenario_matrix : matrix :=
  [ [Fin 0; combined_offset 0 0.5; combined_offset 0 20];
    [combined_offset 0 0.5; Fin 0; combined_offset 0.5 20];
    [combined_offset 0 20; combined_offset 0.5 20; Fin 0] ].

(** ** Binary64 numbers *)

(** A C library whose [pow] rounds every square to nearest and reports no
    range error. *)
Definition pow_rounded (x y : PrimFloat.float) : PrimFloat.float * bool :=
  (PrimFloat.mul x x, false).



(** * Proofs *)

#[local] Arguments pow _ _ : simpl never.

(** ** The error monad *)

Section monad_laws.
Context {A B : Type}.

Lemma bind_OK (a : A) (f : A → result B) : (OK a ≫= f) = f a.
Proof. reflexivity. Qed.

Lemma bind_Raise (e : exn) (f : A → result B) : (Raise e ≫= f) = Raise e.
Proof. reflexivity. Qed.

Lemma bind_OK_inv (m : result A) (f : A → result B) (b : B) :
  m ≫= f = OK b → ∃ a, m = OK a ∧ f a = OK b.
Proof. destruct m as [a|e]; [eauto | discriminate]. Qed.

Lemma fmap_OK (a : A) (f : A → B) : f <$> OK a = OK (f a).
Proof. reflexivity. Qed.
End monad_laws.

Lemma for_in_ext {S X : Type} (xs : list X) (s : S)
    (f g : S → X → result S) :
  (∀ s x, f s x = g s x) → for_in xs s f = for_in xs s g.
Proof.
  intros Hfg. revert s. induction xs as [|x xs IH]; intros s; [done|].
  cbn [for_in]. rewrite Hfg. destruct (g s x); [|done].
  rewrite !bind_OK. apply IH.
Qed.

Ltac monad_simpl :=
  repeat first
    [ rewrite bind_OK | rewrite bind_Raise | rewrite fmap_OK
    | progress cbn [mret result_ret mapM for_in py_min_seq foldl] ].

Lemma getitem_lt {A : Type} (xs : list A) (i : nat) :
  (i < length xs)%nat → ∃ x, xs !! i = Some x ∧ getitem xs i = OK x.
Proof.
  intros Hi. destruct (lookup_lt_is_Some_2 xs i Hi) as [x Hx].
  exists x. unfold getitem. by rewrite Hx.
Qed.

Lemma mapM_getitem {A : Type} (xs : list A) (idx : list nat) :
  Forall (λ i, (i < length xs)%nat) idx →
  ∃ ys, mapM (getitem xs) idx = OK ys
        ∧ Forall2 (λ i y, xs !! i = Some y) idx ys.
Proof.
  induction idx as [|i idx IH]; intros Hidx.
  - exists []. split; [done|constructor].
  - apply Forall_cons in Hidx as [Hi Hidx].
    destruct (IH Hidx) as (ys & Hys & Hall).
    destruct (getitem_lt xs i Hi) as (y & Hy & Hget).
    exists (y :: ys). cbn [mapM]. rewrite Hget, bind_OK, Hys. split; [done|].
    by constructor.
Qed.

(** ** Real arithmetic *)

Lemma sum_squares_nonneg (a b : R) : 0 <= a ^ 2 + b ^ 2.
Proof. nra. Qed.

Lemma sum_squares_zero (a b : R) : a ^ 2 + b ^ 2 = 0 ↔ a = 0 ∧ b = 0.
Proof. split; [intros H; split; nra | intros [-> ->]; lra]. Qed.

Lemma math_sqrt_squares (a b : R) :
  math_sqrt (a ^ 2 + b ^ 2) = OK (sqrt (a ^ 2 + b ^ 2)).
Proof.
  unfold math_sqrt. case_decide as H; [|done].
  pose proof (sum_squares_nonneg a b). lra.
Qed.

Lemma norm_pos (a b : R) : sqrt (a ^ 2 + b ^ 2) > 0 ↔ ¬ (a = 0 ∧ b = 0).
Proof.
  pose proof (sum_squares_nonneg a b) as Hn.
  rewrite <- sum_squares_zero. split.
  - intros Hs Hz. rewrite Hz, sqrt_0 in Hs. lra.
  - intros Hz. apply sqrt_lt_R0. lra.
Qed.

Lemma norm_zero (a b : R) : sqrt (a ^ 2 + b ^ 2) = 0 ↔ a = 0 ∧ b = 0.
Proof.
  rewrite <- sum_squares_zero. split.
  - intros Hs. apply sqrt_eq_0; [apply sum_squares_nonneg | done].
  - intros ->. apply sqrt_0.
Qed.

Lemma norm_not_pos (a b : R) : ¬ sqrt (a ^ 2 + b ^ 2) > 0 → a = 0 ∧ b = 0.
Proof.
  intros Hn. apply norm_zero. pose proof (sqrt_pos (a ^ 2 + b ^ 2)). lra.
Qed.

Lemma py_div_nonzero (x y : R) : y ≠ 0 → py_div x y = OK (x / y).
Proof. intros Hy. unfold py_div. by case_decide. Qed.

Lemma py_div_zero (x : R) : py_div x 0 = Raise ZeroDivisionError.
Proof. unfold py_div. by case_decide. Qed.

Lemma py_max_Rmax (a b : R) : py_max a b = Rmax a b.
Proof. unfold py_max, Rmax. case_decide; destruct (Rle_dec a b); lra. Qed.

Lemma py_min_Rmin (a b : R) : py_min a b = Rmin a b.
Proof. unfold py_min, Rmin. case_decide; destruct (Rle_dec a b); lra. Qed.

Lemma py_min_same (a : R) : py_min a a = a.
Proof. unfold py_min. by case_decide. Qed.

Lemma py_mod_pos (x y : R) :
  0 < y → ∃ r, py_mod x y = OK r ∧ 0 <= r < y
               ∧ r = x - IZR (Int_part (x / y)) * y.
Proof.
  intros Hy. unfold py_mod. rewrite decide_False by lra.
  eexists. split; [done|].
  destruct (base_Int_part (x / y)) as [Hlo Hhi].
  set (k := IZR (Int_part (x / y))) in *.
  assert (Hx : x = x / y * y) by (field; lra).
  split; [|lra]. split.
  - assert (k * y <= x / y * y) by (apply Rmult_le_compat_r; lra). lra.
  - assert (x / y * y < (k + 1) * y) by (apply Rmult_lt_compat_r; lra). lra.
Qed.

Lemma Int_part_succ (r : R) : Int_part (r + 1) = (Int_part r + 1)%Z.
Proof.
  symmetry. apply Int_part_spec. rewrite plus_IZR.
  destruct (base_Int_part r). lra.
Qed.

Lemma Int_part_pred (r : R) : Int_part (r - 1) = (Int_part r - 1)%Z.
Proof.
  symmetry. apply Int_part_spec. rewrite minus_IZR.
  destruct (base_Int_part r). lra.
Qed.

Lemma py_mod_shift (x : R) :
  py_mod (x + PI) PI = py_mod x PI ∧ py_mod (x - PI) PI = py_mod x PI.
Proof.
  pose proof PI_RGT_0. unfold py_mod. case_decide; [lra|].
  replace ((x + PI) / PI) with (x / PI + 1) by (field; lra).
  replace ((x - PI) / PI) with (x / PI - 1) by (field; lra).
  rewrite Int_part_succ, Int_part_pred, plus_IZR, minus_IZR.
  split; f_equal; ring.
Qed.

Lemma math_atan2_opposite (y x : R) :
  x ≠ 0 →
  math_atan2 (- y) (- x) = math_atan2 y x + PI
  ∨ math_atan2 (- y) (- x) = math_atan2 y x - PI.
Proof.
  intros Hx. unfold math_atan2.
  replace (- y / - x) with (y / x) by (field; lra).
  repeat case_decide; try lra; (left; lra) || (right; lra).
Qed.

(** ** Geometry primitives *)

Lemma line_to_canonical_eq (x1 y1 x2 y2 : R) :
  let A := y2 - y1 in
  let B := x1 - x2 in
  let C := x2 * y1 - x1 * y2 in
  let norm := sqrt (A ^ 2 + B ^ 2) in
  line_to_canonical (x1, y1, x2, y2) =
    if decide (norm > 0) then OK (A / norm, B / norm, C / norm)
    else OK (A, B, C).
Proof.
  intros A B C norm. unfold line_to_canonical. fold A B C.
  rewrite math_sqrt_squares, bind_OK. fold norm.
  case_decide as Hn; [|done].
  rewrite !py_div_nonzero by lra. done.
Qed.

Lemma line_to_canonical_OK (s : segment) :
  line_to_canonical s = OK (canonical_of s).
Proof.
  destruct s as [[[x1 y1] x2] y2]. rewrite line_to_canonical_eq.
  unfold canonical_of. cbv zeta. by case_decide.
Qed.

(** A segment of unit length is already normalised. *)
Lemma line_to_canonical_unit (x1 y1 x2 y2 : R) :
  (y2 - y1) ^ 2 + (x1 - x2) ^ 2 = 1 →
  line_to_canonical (x1, y1, x2, y2) =
    OK (y2 - y1, x1 - x2, x2 * y1 - x1 * y2).
Proof.
  intros H1. rewrite line_to_canonical_eq. cbv zeta.
  rewrite H1, sqrt_1, decide_True by lra.
  do 2 f_equal; [f_equal|]; field.
Qed.

Lemma canonical_of_degenerate (s : segment) :
  degenerate (canonical_of s) ↔ zero_length s.
Proof.
  destruct s as [[[x1 y1] x2] y2]. unfold degenerate, canonical_of, zero_length.
  cbv zeta. set (n := sqrt _). case_decide as Hn; cbn [fst snd].
  - assert (Hnz : ¬ (y2 - y1 = 0 ∧ x1 - x2 = 0)) by by apply norm_pos.
    split.
    + intros [HA HB]. exfalso. apply Hnz.
      split; [apply (Rmult_eq_reg_r (/ n))|apply (Rmult_eq_reg_r (/ n))];
        try (apply Rinv_neq_0_compat; lra); unfold Rdiv in *; lra.
    + intros [-> ->]. exfalso. apply Hnz. lra.
  - pose proof (norm_not_pos _ _ Hn). lra.
Qed.

Lemma line_to_canonical_reverse (s : segment) :
  line_to_canonical (reverse_segment s) = negate_line <$> line_to_canonical s.
Proof.
  destruct s as [[[x1 y1] x2] y2]. unfold reverse_segment.
  rewrite !line_to_canonical_eq. cbv zeta.
  replace ((y1 - y2) ^ 2 + (x2 - x1) ^ 2)
    with ((y2 - y1) ^ 2 + (x1 - x2) ^ 2) by ring.
  set (n := sqrt _). case_decide; rewrite fmap_OK; unfold negate_line.
  - do 2 f_equal; [f_equal|]; field; lra.
  - do 2 f_equal; [f_equal|]; ring.
Qed.

Lemma line_center_reverse (s : segment) :
  line_center (reverse_segment s) = line_center s.
Proof.
  destruct s as [[[x1 y1] x2] y2]. unfold reverse_segment, line_center.
  f_equal; lra.
Qed.

Lemma line_length_OK (s : segment) : line_length s = OK (segment_length s).
Proof.
  destruct s as [[[x1 y1] x2] y2]. unfold line_length, segment_length.
  apply math_sqrt_squares.
Qed.

Lemma point_to_line_distance_eq (x y A B C : R) :
  point_to_line_distance (x, y) (A, B, C) =
    py_div (Rabs (A * x + B * y + C)) (sqrt (A ^ 2 + B ^ 2)).
Proof. unfold point_to_line_distance. by rewrite math_sqrt_squares. Qed.

Lemma point_to_line_distance_cases (p : point) (l : canonical) :
  (degenerate l ∧ point_to_line_distance p l = Raise ZeroDivisionError)
  ∨ (¬ degenerate l ∧ ∃ d, point_to_line_distance p l = OK d ∧ 0 <= d).
Proof.
  destruct p as [x y], l as [[A B] C]. unfold degenerate. cbn [fst snd].
  rewrite point_to_line_distance_eq.
  destruct (decide (A = 0 ∧ B = 0)) as [Hz|Hnz].
  - left. split; [done|]. apply norm_zero in Hz as ->. apply py_div_zero.
  - right. split; [done|]. apply norm_pos in Hnz.
    rewrite py_div_nonzero by lra. eexists. split; [done|].
    apply Rmult_le_pos; [apply Rabs_pos|].
    apply Rlt_le, Rinv_0_lt_compat. lra.
Qed.

Lemma point_to_line_distance_negate (p : point) (l : canonical) :
  point_to_line_distance p (negate_line l) = point_to_line_distance p l.
Proof.
  destruct p as [x y], l as [[A B] C]. unfold negate_line.
  rewrite !point_to_line_distance_eq.
  replace ((- A) ^ 2 + (- B) ^ 2) with (A ^ 2 + B ^ 2) by ring.
  replace (- A * x + - B * y + - C) with (- (A * x + B * y + C)) by ring.
  by rewrite Rabs_Ropp.
Qed.

Lemma line_angle_total (l : canonical) :
  ∃ angle, line_angle l = OK angle ∧ 0 <= angle < PI.
Proof.
  destruct l as [[A B] C]. unfold line_angle. pose proof PI_RGT_0 as Hpi.
  case_decide.
  - eexists. split; [done|]. lra.
  - destruct (py_mod_pos (math_atan2 (- A) B) PI) as (r & -> & Hr & _); [lra|].
    eauto.
Qed.

Lemma line_angle_negate (l : canonical) :
  line_angle (negate_line l) = line_angle l.
Proof.
  destruct l as [[A B] C]. unfold negate_line, line_angle.
  destruct (decide (B = 0)) as [->|HB].
  - rewrite decide_True by lra. done.
  - rewrite decide_False by lra.
    destruct (math_atan2_opposite (- A) B HB) as [-> | ->];
      apply py_mod_shift.
Qed.



(** ** The geometry primitives on binary64 *)

Section binary64.
Import PrimFloat SpecFloat FloatOps FloatAxioms.
Import Binary64.
#[local] Open Scope float_scope.


(** [a == 0] holds of the two zeros only. *)
Lemma float_eqb_zero (a : float) : (a =? 0) = true → a = 0 ∨ a = - 0.
Proof.
  rewrite eqb_spec. intros H. rewrite <- (SF2Prim_Prim2SF a).
  destruct (Prim2SF a) as [[]|[]| |[] m e]; vm_compute in H;
    try discriminate H; [by right|by left].
Qed.




Lemma float_sqrt_zero (x : float) : (sqrt x =? 0) = true → (x <? 0) = false.
Proof.
  rewrite eqb_spec, ltb_spec, sqrt_spec.
  destruct (Prim2SF x) as [[]|[]| |[] m e]; vm_compute; congruence.
Qed.


Section libm.
Variable pow : float → float → float * bool.

(** The square of a zero is computed without the C library. *)
Lemma py_pow2_zero (a : float) : (a =? 0) = true → py_pow2 pow a = OK 0.
Proof. by intros [->| ->]%float_eqb_zero. Qed.


Lemma point_to_line_distance_degenerate (x y A B C : float) :
  (A =? 0) = true → (B =? 0) = true →
  point_to_line_distance pow (x, y) (A, B, C) = Raise ZeroDivisionError.
Proof.
  intros HA HB. unfold point_to_line_distance.
  by rewrite !py_pow2_zero.
Qed.


(** C10, amended.  On binary64 numbers [point_to_line_distance] raises
    [ZeroDivisionError] whenever the computed norm sqrt(A**2 + B**2) is
    zero: on every line with A = B = 0, for every point, and on any other
    line whose squares underflow.  It returns exactly when both squares are
    in range and the computed norm is not zero, and the value is then
    |A*x + B*y + C| divided by that norm. *)
Theorem point_to_line_distance_binary64 (x y A B C : float) :
  ((A =? 0) = true → (B =? 0) = true →
   point_to_line_distance pow (x, y) (A, B, C) = Raise ZeroDivisionError)
  ∧ (∀ A2 B2, py_pow2 pow A = OK A2 → py_pow2 pow B = OK B2 →
       (sqrt (A2 + B2) =? 0) = true →
       point_to_line_distance pow (x, y) (A, B, C) = Raise ZeroDivisionError)
  ∧ (∀ d, point_to_line_distance pow (x, y) (A, B, C) = OK d ↔
       ∃ A2 B2, py_pow2 pow A = OK A2 ∧ py_pow2 pow B = OK B2
         ∧ (A2 + B2 <? 0) = false
         ∧ (sqrt (A2 + B2) =? 0) = false
         ∧ d = abs (A * x + B * y + C) / sqrt (A2 + B2)).
Proof.
  split; [apply point_to_line_distance_degenerate|]. split.
  - intros A2 B2 HA HB Hz. unfold point_to_line_distance.
    rewrite HA, HB. cbn [mbind result_bind]. unfold math_sqrt.
    rewrite (float_sqrt_zero _ Hz). cbn [mbind result_bind].
    unfold py_div. by rewrite Hz.
  - intros d. unfold point_to_line_distance.
    destruct (py_pow2 pow A) as [A2|e1]; cbn [mbind result_bind].
    2:{ split; [done|]. by intros (? & ? & [=] & _). }
    destruct (py_pow2 pow B) as [B2|e2]; cbn [mbind result_bind].
    2:{ split; [done|]. by intros (? & ? & _ & [=] & _). }
    unfold math_sqrt.
    destruct (A2 + B2 <? 0) eqn:Hneg; cbn [mbind result_bind].
    { split; [done|]. intros (? & ? & [= <-] & [= <-] & Hn & _). congruence. }
    unfold py_div. destruct (sqrt (A2 + B2) =? 0) eqn:Hz.
    + split; [done|].
      intros (? & ? & [= <-] & [= <-] & _ & Hn & _). congruence.
    + split.
      * intros [= <-]. by exists A2, B2.
      * by intros (? & ? & [= <-] & [= <-] & _ & _ & ->).
Qed.

End libm.


Lemma point_to_line_distance_binary64_witness :
  point_to_line_distance pow_rounded (1, 2) (0, -0, 7)
    = Raise ZeroDivisionError
  ∧ point_to_line_distance pow_rounded (1, 2) (0x1p-600, 0, 1)
    = Raise ZeroDivisionError
  ∧ point_to_line_distance pow_rounded (1, 2) (3, 4, 5)
    = OK 0x1.999999999999ap+1.
Proof.
  destruct (point_to_line_distance_binary64 pow_rounded 1 2 0 (-0) 7)
    as (Hdeg & _).
  destruct (point_to_line_distance_binary64 pow_rounded 1 2 0x1p-600 0 1)
    as (_ & Hnorm & _).
  destruct (point_to_line_distance_binary64 pow_rounded 1 2 3 4 5)
    as (_ & _ & Hret).
  split; [by apply Hdeg|]. split.
  - by apply (Hnorm 0 0).
  - apply Hret. exists 9, 16. by vm_compute.
Defined.


(** A segment with distinct endpoints can come back unnormalised, when its
    squares underflow, and a long one is refused, when they overflow. *)
Lemma line_to_canonical_out_of_range (pow : float → float → float * bool) :
  ((pow 0x1p-600 2).1 = 0 →
   line_to_canonical pow (0, 0, 0x1p-600, 0) = OK (0, -0x1p-600, 0))
  ∧ ((pow 0x1p600 2).1 = infinity →
     line_to_canonical pow (0, 0, 0x1p600, 0) = Raise OverflowError).
Proof.
  split; intros Hpow; unfold line_to_canonical, py_pow2;
    vm_compute sub; vm_compute abs; vm_compute is_nan;
    vm_compute is_infinity; vm_compute eqb; cbn [mbind result_bind].
  - destruct (pow 0x1p-600 2) as [ix []]; cbn [fst] in Hpow; subst ix;
      by vm_compute.
  - destruct (pow 0x1p600 2) as [ix []]; cbn [fst] in Hpow; subst ix;
      by vm_compute.
Qed.

(** C10, as stated, fails: the line (2^-600, 0, 1) has (A, B) <> (0, 0), yet
    A ** 2 underflows to zero and the division raises; and on (2^600, 0, 1)
    the square itself raises. *)
Lemma point_to_line_distance_raises_on_proper_line :
  ¬ ∃ pow, ((pow 0x1p-600 2).1 = 0 ∨ (pow 0x1p600 2).1 = infinity)
      ∧ ∀ x y A B C, ¬ ((A =? 0) = true ∧ (B =? 0) = true) →
          ∃ d, point_to_line_distance pow (x, y) (A, B, C) = OK d.
Proof.
  intros (pow & [Hunder|Hover] & Hret).
  - destruct (Hret 1 2 0x1p-600 0 1) as [d Hd]; [by intros [[=] _]|].
    unfold point_to_line_distance, py_pow2 in Hd.
    revert Hd. vm_compute abs. vm_compute is_nan. vm_compute is_infinity.
    vm_compute eqb.
    destruct (pow 0x1p-600 2) as [ix []]; cbn [fst] in Hunder; subst ix;
      by vm_compute.
  - destruct (Hret 1 2 0x1p600 0 1) as [d Hd]; [by intros [[=] _]|].
    unfold point_to_line_distance, py_pow2 in Hd.
    revert Hd. vm_compute abs. vm_compute is_nan. vm_compute is_infinity.
    vm_compute eqb.
    destruct (pow 0x1p600 2) as [ix []]; cbn [fst] in Hover; subst ix;
      by vm_compute.
Qed.


End binary64.

(** ** The distance metric, method by method *)

Lemma valid_method_cases (m : string) :
  valid_method m ↔
    m = "parallel" ∨ m = "angle" ∨ m = "center" ∨ m = "combined"
    ∨ m = "hausdorff".
Proof. unfold valid_method. rewrite !elem_of_cons, elem_of_nil. tauto. Qed.

Lemma needs_points_cases (m : string) :
  needs_points m ↔ m = "center" ∨ m = "combined" ∨ m = "hausdorff".
Proof.
  unfold needs_points. rewrite bool_decide_spec, !elem_of_cons, elem_of_nil.
  tauto.
Qed.

Lemma angle_difference_nonneg (a b : R) :
  0 <= a < PI → 0 <= b < PI → 0 <= angle_difference a b.
Proof.
  intros Ha Hb. unfold angle_difference. rewrite py_min_Rmin.
  assert (Rabs (a - b) < PI) by (apply Rabs_def1; lra).
  pose proof (Rabs_pos (a - b)). apply Rmin_glb; lra.
Qed.

Lemma lines_distance_parallel (A1 B1 C1 A2 B2 C2 : R) (p1 p2 : option segment) :
  lines_distance (A1, B1, C1) (A2, B2, C2) p1 p2 "parallel" =
    if decide (Rabs (A1 * A2 + B1 * B2) < 0.95) then OK PInf
    else OK (Fin (Rabs (C2 - C1))).
Proof. reflexivity. Qed.

Lemma lines_distance_angle_eq (l1 l2 : canonical) (p1 p2 : option segment) :
  lines_distance l1 l2 p1 p2 "angle" =
    (angle1 ← line_angle l1;
     angle2 ← line_angle l2;
     OK (Fin (angle_difference angle1 angle2 * 100))).
Proof. by destruct l1 as [[A1 B1] C1], l2 as [[A2 B2] C2]. Qed.

Lemma lines_distance_angle (l1 l2 : canonical) (p1 p2 : option segment) :
  ∃ a1 a2, line_angle l1 = OK a1 ∧ line_angle l2 = OK a2
    ∧ lines_distance l1 l2 p1 p2 "angle" =
        OK (Fin (angle_difference a1 a2 * 100))
    ∧ 0 <= angle_difference a1 a2.
Proof.
  destruct (line_angle_total l1) as (a1 & H1 & Hr1).
  destruct (line_angle_total l2) as (a2 & H2 & Hr2).
  exists a1, a2. split; [done|]. split; [done|].
  split; [|by apply angle_difference_nonneg].
  by rewrite lines_distance_angle_eq, H1, H2.
Qed.

Lemma lines_distance_center (l1 l2 : canonical) (s1 s2 : segment) :
  lines_distance l1 l2 (Some s1) (Some s2) "center" =
    OK (Fin (sqrt (((line_center s1).1 - (line_center s2).1) ^ 2
                   + ((line_center s1).2 - (line_center s2).2) ^ 2))).
Proof.
  destruct l1 as [[A1 B1] C1], l2 as [[A2 B2] C2].
  unfold lines_distance. rewrite !decide_False, decide_True by done.
  by rewrite math_sqrt_squares.
Qed.

Lemma lines_distance_combined (l1 l2 : canonical) (s1 s2 : segment) :
  lines_distance l1 l2 (Some s1) (Some s2) "combined" =
    (angle1 ← line_angle l1;
     angle2 ← line_angle l2;
     center_distance ←
       math_sqrt (((line_center s1).1 - (line_center s2).1) ^ 2
                  + ((line_center s1).2 - (line_center s2).2) ^ 2);
     dist1_to_2 ← point_to_line_distance (line_center s1) l2;
     dist2_to_1 ← point_to_line_distance (line_center s2) l1;
     OK (Fin (angle_difference angle1 angle2 * 50 + center_distance * 0.5
              + (dist1_to_2 + dist2_to_1) / 2 * 1.0))).
Proof. by destruct l1 as [[A1 B1] C1], l2 as [[A2 B2] C2]. Qed.

Lemma lines_distance_combined_cases (l1 l2 : canonical) (s1 s2 : segment) :
  ((degenerate l1 ∨ degenerate l2)
   ∧ lines_distance l1 l2 (Some s1) (Some s2) "combined" =
       Raise ZeroDivisionError)
  ∨ (¬ degenerate l1 ∧ ¬ degenerate l2
     ∧ ∃ d, lines_distance l1 l2 (Some s1) (Some s2) "combined" = OK (Fin d)
            ∧ 0 <= d).
Proof.
  rewrite lines_distance_combined.
  destruct (line_angle_total l1) as (a1 & -> & Hr1).
  destruct (line_angle_total l2) as (a2 & -> & Hr2).
  rewrite math_sqrt_squares. monad_simpl.
  pose proof (angle_difference_nonneg _ _ Hr1 Hr2) as Ha.
  set (cd := sqrt _). assert (0 <= cd) by apply sqrt_pos.
  destruct (point_to_line_distance_cases (line_center s1) l2)
    as [[Hd2 ->]|[Hd2 (d1 & -> & Hd1)]]; [left; auto|].
  destruct (point_to_line_distance_cases (line_center s2) l1)
    as [[Hd3 ->]|[Hd3 (d2 & -> & Hd4)]]; [left; auto|].
  right. split; [done|]. split; [done|]. eexists. split; [done|]. lra.
Qed.

(** One pass of the Hausdorff loop over two endpoints: the inner [min] runs
    over two copies of the same distance. *)
Lemma hausdorff_pass_two (p q : point) (others : point * point)
    (l : canonical) (m : R) :
  hausdorff_pass [p; q] [others.1; others.2] l m =
    (d1 ← point_to_line_distance p l;
     d2 ← point_to_line_distance q l;
     OK (Rmax (Rmax m d1) d2)).
Proof.
  unfold hausdorff_pass. monad_simpl.
  destruct (point_to_line_distance_cases p l) as [[Hd ->]|[Hd (d1 & -> & _)]];
    [done|].
  monad_simpl. rewrite py_min_same.
  destruct (point_to_line_distance_cases q l) as [[Hd' ->]|[_ (d2 & -> & _)]];
    [done|].
  monad_simpl. by rewrite py_min_same, !py_max_Rmax.
Qed.

Lemma lines_distance_hausdorff (l1 l2 : canonical) (s1 s2 : segment) :
  lines_distance l1 l2 (Some s1) (Some s2) "hausdorff" =
    let '(x1, y1, x2, y2) := s1 in
    let '(u1, v1, u2, v2) := s2 in
    m ← hausdorff_pass [(x1, y1); (x2, y2)] [(u1, v1); (u2, v2)] l2 0;
    m ← hausdorff_pass [(u1, v1); (u2, v2)] [(x1, y1); (x2, y2)] l1 m;
    OK (Fin m).
Proof.
  destruct l1 as [[A1 B1] C1], l2 as [[A2 B2] C2].
  destruct s1 as [[[x1 y1] x2] y2], s2 as [[[u1 v1] u2] v2].
  reflexivity.
Qed.

Lemma lines_distance_hausdorff_unrolled (l1 l2 : canonical)
    (s1 s2 : segment) :
  lines_distance l1 l2 (Some s1) (Some s2) "hausdorff" =
    hausdorff_unrolled l1 l2 s1 s2.
Proof.
  rewrite lines_distance_hausdorff. unfold hausdorff_unrolled.
  destruct s1 as [[[x1 y1] x2] y2], s2 as [[[u1 v1] u2] v2].
  rewrite (hausdorff_pass_two _ _ ((u1, v1), (u2, v2))).
  destruct (point_to_line_distance (x1, y1) l2) as [d1|]; [|done].
  destruct (point_to_line_distance (x2, y2) l2) as [d2|]; [|done].
  monad_simpl. rewrite (hausdorff_pass_two _ _ ((x1, y1), (x2, y2))).
  destruct (point_to_line_distance (u1, v1) l1) as [d3|]; [|done].
  by destruct (point_to_line_distance (u2, v2) l1) as [d4|].
Qed.

Lemma lines_distance_hausdorff_cases (l1 l2 : canonical) (s1 s2 : segment) :
  ((degenerate l1 ∨ degenerate l2)
   ∧ lines_distance l1 l2 (Some s1) (Some s2) "hausdorff" =
       Raise ZeroDivisionError)
  ∨ (¬ degenerate l1 ∧ ¬ degenerate l2
     ∧ ∃ d, lines_distance l1 l2 (Some s1) (Some s2) "hausdorff" = OK (Fin d)
            ∧ 0 <= d).
Proof.
  rewrite lines_distance_hausdorff_unrolled. unfold hausdorff_unrolled.
  destruct s1 as [[[x1 y1] x2] y2], s2 as [[[u1 v1] u2] v2].
  destruct (point_to_line_distance_cases (x1, y1) l2)
    as [[? ->]|[? (d1 & -> & Hd1)]]; [left; auto|].
  destruct (point_to_line_distance_cases (x2, y2) l2)
    as [[? ->]|[_ (d2 & -> & Hd2)]]; [left; auto|].
  destruct (point_to_line_distance_cases (u1, v1) l1)
    as [[? ->]|[? (d3 & -> & Hd3)]]; [left; auto|].
  destruct (point_to_line_distance_cases (u2, v2) l1)
    as [[? ->]|[_ (d4 & -> & Hd4)]]; [left; auto|].
  right. split; [done|]. split; [done|]. eexists. split; [done|].
  do 3 (eapply Rle_trans; [|apply Rmax_l]). apply Rmax_l.
Qed.

(** ** When the distance function raises *)

Lemma lines_distance_unknown (l1 l2 : canonical) (p1 p2 : option segment)
    (m : string) :
  ¬ valid_method m → lines_distance l1 l2 p1 p2 m = Raise (UnknownMethod m).
Proof.
  rewrite valid_method_cases. intros Hm.
  destruct l1 as [[A1 B1] C1], l2 as [[A2 B2] C2]. unfold lines_distance.
  repeat case_decide; tauto.
Qed.

Lemma lines_distance_missing_points (l1 l2 : canonical)
    (p1 p2 : option segment) (m : string) :
  needs_points m → p1 = None ∨ p2 = None →
  lines_distance l1 l2 p1 p2 m = Raise (PointsRequired m).
Proof.
  rewrite needs_points_cases. intros Hm Hp.
  destruct l1 as [[A1 B1] C1], l2 as [[A2 B2] C2].
  destruct Hm as [->| [->| ->]]; destruct Hp as [-> | ->];
    try done; by destruct p1 as [[[[? ?] ?] ?]|].
Qed.

Lemma lines_distance_free_of_points (l1 l2 : canonical)
    (p1 p2 : option segment) (m : string) :
  m ∈ ["parallel"; "angle"] → ∃ d, lines_distance l1 l2 p1 p2 m = OK d.
Proof.
  rewrite !elem_of_cons, elem_of_nil. intros [->|[->|[]]].
  - destruct l1 as [[A1 B1] C1], l2 as [[A2 B2] C2].
    rewrite lines_distance_parallel. case_decide; eauto.
  - destruct (lines_distance_angle l1 l2 p1 p2) as (? & ? & _ & _ & -> & _).
    eauto.
Qed.

Lemma lines_distance_degenerate (l1 l2 : canonical) (p1 p2 : option segment)
    (m : string) :
  m ∈ ["combined"; "hausdorff"] → is_Some p1 → is_Some p2 →
  degenerate l1 ∨ degenerate l2 →
  lines_distance l1 l2 p1 p2 m = Raise ZeroDivisionError.
Proof.
  rewrite !elem_of_cons, elem_of_nil.
  intros Hm [s1 ->] [s2 ->] Hdeg. destruct Hm as [->|[->|[]]].
  - destruct (lines_distance_combined_cases l1 l2 s1 s2)
      as [[_ ->]|(? & ? & _)]; [done|tauto].
  - destruct (lines_distance_hausdorff_cases l1 l2 s1 s2)
      as [[_ ->]|(? & ? & _)]; [done|tauto].
Qed.

Lemma lines_distance_returns (l1 l2 : canonical) (p1 p2 : option segment)
    (m : string) :
  valid_method m →
  (needs_points m → is_Some p1 ∧ is_Some p2) →
  (m ∈ ["combined"; "hausdorff"] → ¬ degenerate l1 ∧ ¬ degenerate l2) →
  ∃ d, lines_distance l1 l2 p1 p2 m = OK d.
Proof.
  rewrite valid_method_cases, needs_points_cases, !elem_of_cons, elem_of_nil.
  intros Hm Hp Hdeg.
  destruct Hm as [->|[->|[->|[->| ->]]]];
    try (apply lines_distance_free_of_points; rewrite !elem_of_cons; by auto).
  - destruct Hp as [[s1 ->] [s2 ->]]; [auto|].
    rewrite lines_distance_center. eauto.
  - destruct Hp as [[s1 ->] [s2 ->]]; [auto|].
    destruct (lines_distance_combined_cases l1 l2 s1 s2)
      as [[? _]|(_ & _ & d & -> & _)]; [|eauto].
    destruct Hdeg; [auto|tauto].
  - destruct Hp as [[s1 ->] [s2 ->]]; [auto|].
    destruct (lines_distance_hausdorff_cases l1 l2 s1 s2)
      as [[? _]|(_ & _ & d & -> & _)]; [|eauto].
    destruct Hdeg; [auto|tauto].
Qed.

(** Every distance a valid method returns is a non-negative real, or [+inf]
    under 'parallel'. *)
Lemma lines_distance_value (l1 l2 : canonical) (p1 p2 : option segment)
    (m : string) (d : xreal) :
  valid_method m → lines_distance l1 l2 p1 p2 m = OK d → distance_value m d.
Proof.
  rewrite valid_method_cases. intros [->|[->|[->|[->| ->]]]].
  - destruct l1 as [[A1 B1] C1], l2 as [[A2 B2] C2].
    rewrite lines_distance_parallel. case_decide; intros [= <-]; [done|].
    apply Rabs_pos.
  - destruct (lines_distance_angle l1 l2 p1 p2) as (a1 & a2 & _ & _ & -> & Ha).
    intros [= <-]. simpl. lra.
  - destruct p1 as [s1|], p2 as [s2|];
      try (rewrite lines_distance_missing_points by (done || auto); done).
    rewrite lines_distance_center. intros [= <-]. apply sqrt_pos.
  - destruct p1 as [s1|], p2 as [s2|];
      try (rewrite lines_distance_missing_points by (done || auto); done).
    destruct (lines_distance_combined_cases l1 l2 s1 s2)
      as [[_ ->]|(_ & _ & r & -> & Hr)]; [done|]. by intros [= <-].
  - destruct p1 as [s1|], p2 as [s2|];
      try (rewrite lines_distance_missing_points by (done || auto); done).
    destruct (lines_distance_hausdorff_cases l1 l2 s1 s2)
      as [[_ ->]|(_ & _ & r & -> & Hr)]; [done|]. by intros [= <-].
Qed.

(** ** The claims about the distance function *)




(** C6.  With both segments supplied, the 'hausdorff' loop, inner [min]
    included, equals the maximum of the four endpoint-to-line distances
    (the endpoints of segment 1 against line 2, those of segment 2 against
    line 1); both sides raise the same exception on a degenerate line. *)
Theorem hausdorff_is_max_of_four (l1 l2 : canonical) (s1 s2 : segment) :
  lines_distance l1 l2 (Some s1) (Some s2) "hausdorff" =
    Fin <$> hausdorff_max_of_four l1 l2 s1 s2.
Proof.
  rewrite lines_distance_hausdorff_unrolled.
  unfold hausdorff_unrolled, hausdorff_max_of_four.
  destruct s1 as [[[x1 y1] x2] y2], s2 as [[[u1 v1] u2] v2].
  destruct (point_to_line_distance_cases (x1, y1) l2)
    as [[_ ->]|[_ (d1 & -> & Hd1)]]; [done|].
  destruct (point_to_line_distance_cases (x2, y2) l2)
    as [[_ ->]|[_ (d2 & -> & Hd2)]]; [done|].
  destruct (point_to_line_distance_cases (u1, v1) l1)
    as [[_ ->]|[_ (d3 & -> & Hd3)]]; [done|].
  destruct (point_to_line_distance_cases (u2, v2) l1)
    as [[_ ->]|[_ (d4 & -> & Hd4)]]; [done|].
  monad_simpl. do 2 f_equal.
  rewrite (Rmax_right 0 d1) by done.
  by rewrite <- !Rmax_assoc.
Qed.

(** C7, as stated, fails twice.  With every required argument present a
    valid method can still raise: a zero-length segment has the canonical
    line (0, 0, 0), and the perpendicular distance to it divides by zero.
    And the error for a missing point argument does not name the missing
    parameter: its text names the method, and is the same whichever of the
    two arguments is absent. *)
Lemma lines_distance_raises_on_degenerate_line :
  ¬ (∀ (l1 l2 : canonical) (p1 p2 : option segment) (m : string),
       valid_method m → (needs_points m → is_Some p1 ∧ is_Some p2) →
       ∃ d, lines_distance l1 l2 p1 p2 m = OK d)
  ∧ ∃ e, lines_distance (0, -1, 0) (0, -1, 1) None (Some (0, 1, 1, 1))
           "center" = Raise e
         ∧ lines_distance (0, -1, 0) (0, -1, 1) (Some (0, 0, 1, 0)) None
             "center" = Raise e
         ∧ value_error_message e
           = Some "Для метода 'center' нужны исходные точки линий".
Proof.
  split.
  - intros Hall.
    destruct (Hall (0, 0, 0) (0, -1, 0) (Some (0, 0, 0, 0))
                (Some (0, 0, 1, 0)) "combined") as [d Hd].
    + rewrite valid_method_cases. auto.
    + intros _. split; eauto.
    + destruct (lines_distance_combined_cases (0, 0, 0) (0, -1, 0)
                  (0, 0, 0, 0) (0, 0, 1, 0)) as [[_ He]|(Hn & _)].
      * rewrite He in Hd. discriminate.
      * apply Hn. by split.
  - exists (PointsRequired "center").
    split; [|split; [|done]]; by apply lines_distance_missing_points; auto.
Qed.

(** C7, amended.  [lines_distance] raises a [ValueError] in two cases: a
    method outside the five tags raises the unknown-method error, whose text
    ends with the offending string; 'center', 'combined' or 'hausdorff' with
    a point argument absent raises, whatever the lines are and before any
    distance is computed, an error whose text names the method, not the
    missing parameter.  These are not the only failures: with both point
    arguments present, 'combined' and 'hausdorff' never return a value on a
    canonical line with A = B = 0.  'parallel' and 'angle' return for any
    arguments. *)
Theorem lines_distance_failure_cases (l1 l2 : canonical)
    (p1 p2 : option segment) (m : string) :
  (¬ valid_method m →
     lines_distance l1 l2 p1 p2 m = Raise (UnknownMethod m)
     ∧ value_error_message (UnknownMethod m)
       = Some ("Неизвестный метод: " +:+ m))
  ∧ (needs_points m → p1 = None ∨ p2 = None →
     lines_distance l1 l2 p1 p2 m = Raise (PointsRequired m)
     ∧ value_error_message (PointsRequired m)
       = Some ("Для метода '" +:+ m +:+ "' нужны исходные точки линий"))
  ∧ (m ∈ ["combined"; "hausdorff"] → is_Some p1 → is_Some p2 →
     degenerate l1 ∨ degenerate l2 →
     ∃ e, lines_distance l1 l2 p1 p2 m = Raise e)
  ∧ (m ∈ ["parallel"; "angle"] →
     ∃ d, lines_distance l1 l2 p1 p2 m = OK d).
Proof.
  split; [split; [by apply lines_distance_unknown|done]|].
  split; [split; [by apply lines_distance_missing_points|done]|].
  split; [|apply lines_distance_free_of_points].
  intros Hm H1 H2 Hdeg. exists ZeroDivisionError.
  by apply lines_distance_degenerate.
Qed.

Lemma lines_distance_failure_cases_witness :
  lines_distance (0, -1, 0) (0, -1, 1) None None "bogus"
    = Raise (UnknownMethod "bogus")
  ∧ value_error_message (UnknownMethod "bogus")
    = Some "Неизвестный метод: bogus"
  ∧ lines_distance (0, 0, 0) (0, -1, 1) (Some (0, 0, 0, 0)) None "center"
    = Raise (PointsRequired "center")
  ∧ (∃ e, lines_distance (0, 0, 0) (0, -1, 0) (Some (0, 0, 0, 0))
            (Some (0, 0, 1, 0)) "hausdorff" = Raise e)
  ∧ (∃ d, lines_distance (0, 0, 0) (0, -1, 1) None None "angle" = OK d).
Proof.
  destruct (lines_distance_failure_cases (0, -1, 0) (0, -1, 1) None None
              "bogus") as (Hunknown & _).
  destruct (lines_distance_failure_cases (0, 0, 0) (0, -1, 1)
              (Some (0, 0, 0, 0)) None "center") as (_ & Hmissing & _).
  destruct (lines_distance_failure_cases (0, 0, 0) (0, -1, 0)
              (Some (0, 0, 0, 0)) (Some (0, 0, 1, 0)) "hausdorff")
    as (_ & _ & Hzero & _).
  destruct (lines_distance_failure_cases (0, 0, 0) (0, -1, 1) None None
              "angle") as (_ & _ & _ & Hfree).
  split; [|split; [|split; [|split]]].
  - apply Hunknown. rewrite valid_method_cases.
    intros [H|[H|[H|[H|H]]]]; discriminate H.
  - apply Hunknown. rewrite valid_method_cases.
    intros [H|[H|[H|[H|H]]]]; discriminate H.
  - apply Hmissing; [done|by right].
  - apply Hzero.
    + rewrite !elem_of_cons. auto.
    + by eexists.
    + by eexists.
    + left. by split.
  - apply Hfree. rewrite !elem_of_cons. auto.
Defined.

(** ** Reversing a segment *)

Lemma hausdorff_unrolled_reverse (l1 l2 : canonical) (s1 s2 : segment) :
  hausdorff_unrolled (negate_line l1) l2 (reverse_segment s1) s2 =
    hausdorff_unrolled l1 l2 s1 s2
  ∧ hausdorff_unrolled l1 (negate_line l2) s1 (reverse_segment s2) =
      hausdorff_unrolled l1 l2 s1 s2.
Proof.
  destruct s1 as [[[x1 y1] x2] y2], s2 as [[[u1 v1] u2] v2].
  unfold hausdorff_unrolled, reverse_segment.
  rewrite !point_to_line_distance_negate.
  destruct (point_to_line_distance_cases (x1, y1) l2)
    as [[? ->]|[? (d1 & -> & _)]];
  destruct (point_to_line_distance_cases (x2, y2) l2)
    as [[? ->]|[? (d2 & -> & _)]]; try done.
  monad_simpl.
  destruct (point_to_line_distance_cases (u1, v1) l1)
    as [[? ->]|[? (d3 & -> & _)]];
  destruct (point_to_line_distance_cases (u2, v2) l1)
    as [[? ->]|[? (d4 & -> & _)]]; try done.
  monad_simpl. split; do 2 f_equal.
  - by rewrite <- !(Rmax_assoc 0), (Rmax_comm d2 d1).
  - by rewrite <- !(Rmax_assoc (Rmax (Rmax 0 d1) d2)), (Rmax_comm d4 d3).
Qed.

(** Reversing the endpoints of either segment, in the canonical line and in
    the raw points alike, does not change the distance under 'angle',
    'center', 'combined' or 'hausdorff'. *)
Lemma lines_distance_reversal_invariant (l1 l2 : canonical) (s1 s2 : segment)
    (m : string) :
  m ∈ ["angle"; "center"; "combined"; "hausdorff"] →
  lines_distance (negate_line l1) l2 (Some (reverse_segment s1)) (Some s2) m =
    lines_distance l1 l2 (Some s1) (Some s2) m
  ∧ lines_distance l1 (negate_line l2) (Some s1) (Some (reverse_segment s2)) m =
      lines_distance l1 l2 (Some s1) (Some s2) m.
Proof.
  rewrite !elem_of_cons, elem_of_nil. intros [->|[->|[->|[->|[]]]]].
  - by rewrite !lines_distance_angle_eq, !line_angle_negate.
  - by rewrite !lines_distance_center, !line_center_reverse.
  - by rewrite !lines_distance_combined, !line_angle_negate,
      !line_center_reverse, !point_to_line_distance_negate.
  - rewrite !lines_distance_hausdorff_unrolled.
    destruct (hausdorff_unrolled_reverse l1 l2 s1 s2) as [-> ->]. done.
Qed.

(** C4 fails for 'parallel'.  The segments (0,1)-(1,1) and (0,2)-(1,2) lie on
    the parallel lines y = 1 and y = 2: their 'parallel' distance is 1, and
    it becomes 3 once the first segment is given right to left, because the
    reversed segment has the canonical line (0, 1, -1) instead of
    (0, -1, 1) and the method subtracts the C coefficients as they are. *)
Theorem parallel_distance_depends_on_direction :
  line_to_canonical (0, 1, 1, 1) = OK (0, -1, 1)
  ∧ line_to_canonical (reverse_segment (0, 1, 1, 1)) = OK (0, 1, -1)
  ∧ line_to_canonical (0, 2, 1, 2) = OK (0, -1, 2)
  ∧ lines_distance (0, -1, 1) (0, -1, 2)
      (Some (0, 1, 1, 1)) (Some (0, 2, 1, 2)) "parallel" = OK (Fin 1)
  ∧ lines_distance (0, 1, -1) (0, -1, 2)
      (Some (reverse_segment (0, 1, 1, 1))) (Some (0, 2, 1, 2)) "parallel"
    = OK (Fin 3).
Proof.
  repeat split.
  - rewrite line_to_canonical_unit by lra. do 2 f_equal; [f_equal|]; lra.
  - cbn [reverse_segment].
    rewrite line_to_canonical_unit by lra. do 2 f_equal; [f_equal|]; lra.
  - rewrite line_to_canonical_unit by lra. do 2 f_equal; [f_equal|]; lra.
  - rewrite lines_distance_parallel.
    replace (0 * 0 + -1 * -1) with 1 by lra. replace (2 - 1) with 1 by lra.
    rewrite Rabs_R1, decide_False by lra. done.
  - rewrite lines_distance_parallel.
    rewrite (Rabs_left (0 * 0 + 1 * -1)), decide_False by lra.
    rewrite Rabs_pos_eq by lra. do 2 f_equal. lra.
Qed.

(** ** The distance matrix *)

Lemma mapM_line_to_canonical (lines : list segment) :
  mapM line_to_canonical lines = OK (canonical_of <$> lines).
Proof.
  induction lines as [|s lines IH]; [done|].
  cbn [mapM]. rewrite line_to_canonical_OK, bind_OK, IH. done.
Qed.

Lemma mat_get_entry (a : matrix) (i j : nat) (v : xreal) :
  mat_get a i j = OK v ↔ entry a i j = Some v.
Proof.
  unfold mat_get, entry, getitem.
  destruct (a !! i) as [row|]; cbn; [|split; congruence].
  destruct (row !! j); split; congruence.
Qed.

Lemma square_np_zeros (n : nat) : square n (np_zeros n n).
Proof.
  unfold square, np_zeros. rewrite length_replicate. split; [done|].
  apply Forall_replicate, length_replicate.
Qed.

Lemma entry_np_zeros (n i j : nat) :
  (i < n)%nat → (j < n)%nat → entry (np_zeros n n) i j = Some (Fin 0).
Proof.
  intros Hi Hj. unfold entry, np_zeros.
  rewrite lookup_replicate_2 by done. cbn. by apply lookup_replicate_2.
Qed.

Lemma square_row (n : nat) (a : matrix) (i : nat) :
  square n a → (i < n)%nat → ∃ row, a !! i = Some row ∧ length row = n.
Proof.
  intros [Hlen Hrows] Hi.
  destruct (lookup_lt_is_Some_2 a i) as [row Hrow]; [lia|].
  exists row. split; [done|].
  by apply (Forall_lookup_1 _ _ _ _ Hrows Hrow).
Qed.

Lemma mat_get_in_range (n : nat) (a : matrix) (i j : nat) :
  square n a → (i < n)%nat → (j < n)%nat → ∃ d, mat_get a i j = OK d.
Proof.
  intros Hsq Hi Hj. destruct (square_row n a i Hsq Hi) as (row & Hrow & Hlen).
  destruct (lookup_lt_is_Some_2 row j) as [d Hd]; [lia|].
  exists d. apply mat_get_entry. unfold entry. by rewrite Hrow.
Qed.

Lemma mat_set_square (n : nat) (a : matrix) (i j : nat) (v : xreal) :
  square n a → (i < n)%nat → (j < n)%nat →
  ∃ a', mat_set a i j v = OK a' ∧ square n a'
    ∧ ∀ p q, entry a' p q =
        if decide (p = i ∧ q = j) then Some v else entry a p q.
Proof.
  intros Hsq Hi Hj.
  destruct (square_row n a i Hsq Hi) as (row & Hrow & Hlen).
  unfold mat_set, getitem. rewrite Hrow, bind_OK.
  rewrite decide_True by lia. eexists. split; [done|]. split.
  - destruct Hsq as [Hl Hrows]. split; [by rewrite length_insert|].
    apply Forall_insert; [done|]. by rewrite length_insert.
  - intros p q. unfold entry. destruct (decide (p = i)) as [->|Hp].
    + rewrite list_lookup_insert_eq by (destruct Hsq; lia).
      rewrite Hrow. cbn. destruct (decide (q = j)) as [->|Hq].
      * rewrite decide_True by done. apply list_lookup_insert_eq. lia.
      * rewrite decide_False by tauto. by apply list_lookup_insert_ne.
    + rewrite decide_False by tauto. by rewrite list_lookup_insert_ne.
Qed.

Lemma fill_pair_OK (lines : list segment) (method : string) (i j : nat)
    (dm : matrix) (d : xreal) :
  pair_distance lines method i j = OK d →
  fill_pair lines method i dm j =
    (dm1 ← mat_set dm i j d; mat_set dm1 j i d).
Proof. intros Hd. unfold fill_pair. by rewrite Hd. Qed.

Lemma fill_pair_Raise (lines : list segment) (method : string) (i j : nat)
    (dm : matrix) (e : exn) :
  pair_distance lines method i j = Raise e →
  fill_pair lines method i dm j = Raise e.
Proof. intros Hd. unfold fill_pair. by rewrite Hd. Qed.

Lemma calculate_line_distances_eq (lines : list segment) (method : string) :
  calculate_line_distances lines method =
    for_in (range 0 (length lines)) (np_zeros (length lines) (length lines))
      (λ dm i, for_in (range (i + 1) (length lines)) dm
                 (fill_pair lines method i)).
Proof.
  unfold calculate_line_distances.
  rewrite mapM_line_to_canonical, bind_OK.
  apply for_in_ext. intros dm i. apply for_in_ext. intros dm' j.
  unfold fill_pair, pair_distance.
  destruct (getitem (canonical_of <$> lines) i) as [ci|]; [|done].
  destruct (getitem (canonical_of <$> lines) j) as [cj|]; [|done].
  destruct (needs_points method); [|done].
  destruct (getitem lines i) as [si|]; [|done].
  by destruct (getitem lines j) as [sj|].
Qed.

Section matrix_loops.
Context (lines : list segment) (method : string).
Let n := length lines.
Let pd := pair_distance lines method.

(** The inner loop: row [i] and column [i] are filled from column [s] on. *)
Lemma fill_row (i k : nat) : ∀ (s : nat) (dm : matrix),
  (i < s)%nat → (s + k ≤ n)%nat → square n dm →
  match for_in (seq s k) dm (fill_pair lines method i) with
  | OK dm' =>
      square n dm'
      ∧ (∀ j, (s ≤ j < s + k)%nat → ∃ d, pd i j = OK d)
      ∧ ∀ p q, entry dm' p q =
          if decide (p = i ∧ s ≤ q < s + k)%nat then returned (pd i q)
          else if decide (q = i ∧ s ≤ p < s + k)%nat then returned (pd i p)
          else entry dm p q
  | Raise e => ∃ j, (s ≤ j < s + k)%nat ∧ pd i j = Raise e
  end.
Proof.
  induction k as [|k IH]; intros s dm Hi Hk Hsq.
  - cbn [seq for_in]. split; [done|]. split; [intros; lia|].
    intros p q. repeat case_decide; try lia. done.
  - cbn [seq for_in].
    destruct (pd i s) as [d|e] eqn:Hd;
      [|rewrite (fill_pair_Raise _ _ _ _ _ _ Hd), bind_Raise;
        exists s; split; [lia|done]].
    rewrite (fill_pair_OK _ _ _ _ _ _ Hd).
    destruct (mat_set_square n dm i s d) as (dm1 & -> & Hsq1 & He1);
      [done|lia|lia|].
    rewrite bind_OK.
    destruct (mat_set_square n dm1 s i d) as (dm2 & -> & Hsq2 & He2);
      [done|lia|lia|].
    rewrite bind_OK. specialize (IH (S s) dm2).
    destruct (for_in (seq (S s) k) dm2 (fill_pair lines method i))
      as [dm'|e].
    + destruct IH as (Hsq' & Hall & Hent); [lia|lia|done|].
      split; [done|]. split.
      * intros j Hj. destruct (decide (j = s)) as [->|]; [eauto|].
        apply Hall. lia.
      * intros p q. rewrite Hent, He2, He1.
        repeat case_decide; destruct_and?; simplify_eq; try lia;
          try done; by rewrite Hd.
    + destruct IH as (j & Hj & He); [lia|lia|done|].
      exists j. split; [lia|done].
Qed.

(** The outer loop: the rows from [s] on fill the upper triangle and its
    mirror image. *)
Lemma fill_rows (k : nat) : ∀ (s : nat) (dm : matrix),
  (s + k ≤ n)%nat → square n dm →
  match for_in (seq s k) dm
          (λ dm i, for_in (range (i + 1) n) dm (fill_pair lines method i))
  with
  | OK dm' =>
      square n dm'
      ∧ (∀ i j, (s ≤ i < s + k)%nat → (i < j < n)%nat → ∃ d, pd i j = OK d)
      ∧ ∀ p q, entry dm' p q =
          if decide (s ≤ p < s + k ∧ p < q < n)%nat then returned (pd p q)
          else if decide (s ≤ q < s + k ∧ q < p < n)%nat
               then returned (pd q p)
          else entry dm p q
  | Raise e =>
      ∃ i j, (s ≤ i < s + k)%nat ∧ (i < j < n)%nat ∧ pd i j = Raise e
  end.
Proof.
  unfold range. induction k as [|k IH]; intros s dm Hk Hsq.
  - cbn [seq for_in]. split; [done|]. split; [intros; lia|].
    intros p q. repeat case_decide; try lia. done.
  - cbn [seq for_in].
    pose proof (fill_row s (n - (s + 1)) (s + 1) dm) as Hrow.
    destruct (for_in (seq (s + 1) (n - (s + 1))) dm
                (fill_pair lines method s)) as [dm1|e].
    + destruct Hrow as (Hsq1 & Hall1 & He1); [lia|lia|done|].
      rewrite bind_OK. specialize (IH (S s) dm1).
      match goal with
      | |- match ?t with _ => _ end => destruct t as [dm'|e]
      end.
      * destruct IH as (Hsq' & Hall & Hent); [lia|done|].
        split; [done|]. split.
        -- intros i j Hi Hj. destruct (decide (i = s)) as [->|].
           ++ apply Hall1. lia.
           ++ apply Hall; lia.
        -- intros p q. rewrite Hent, He1.
           repeat case_decide; destruct_and?; simplify_eq; try lia; done.
      * destruct IH as (i & j & Hi & Hj & He); [lia|done|].
        exists i, j. split; [lia|done].
    + destruct Hrow as (j & Hj & He); [lia|lia|done|].
      exists s, j. split; [lia|]. split; [lia|done].
Qed.
End matrix_loops.

Lemma pair_distance_eq (lines : list segment) (m : string) (i j : nat)
    (si sj : segment) :
  lines !! i = Some si → lines !! j = Some sj →
  pair_distance lines m i j =
    lines_distance (canonical_of si) (canonical_of sj)
      (if needs_points m then Some si else None)
      (if needs_points m then Some sj else None) m.
Proof.
  intros Hi Hj. unfold pair_distance, getitem.
  rewrite !list_lookup_fmap, Hi, Hj. cbn [fmap option_fmap option_map].
  rewrite !bind_OK. by destruct (needs_points m).
Qed.

Lemma pair_distance_value (lines : list segment) (m : string) (i j : nat)
    (d : xreal) :
  valid_method m → pair_distance lines m i j = OK d → distance_value m d.
Proof.
  intros Hm. unfold pair_distance. intros Hd.
  apply bind_OK_inv in Hd as (ci & _ & Hd).
  apply bind_OK_inv in Hd as (cj & _ & Hd).
  apply bind_OK_inv in Hd as (p1 & _ & Hd).
  apply bind_OK_inv in Hd as (p2 & _ & Hd).
  by apply (lines_distance_value _ _ _ _ _ _ Hm Hd).
Qed.

Lemma pair_distance_total (lines : list segment) (m : string) (i j : nat) :
  valid_method m →
  (m ∈ ["combined"; "hausdorff"] → Forall (λ s, ¬ zero_length s) lines) →
  (i < length lines)%nat → (j < length lines)%nat →
  ∃ d, pair_distance lines m i j = OK d.
Proof.
  intros Hm Hnz Hi Hj.
  destruct (lookup_lt_is_Some_2 lines i Hi) as [si Hsi].
  destruct (lookup_lt_is_Some_2 lines j Hj) as [sj Hsj].
  rewrite (pair_distance_eq _ _ _ _ _ _ Hsi Hsj).
  apply lines_distance_returns; [done| |].
  - destruct (needs_points m); [eauto|done].
  - intros Hch. specialize (Hnz Hch). rewrite !canonical_of_degenerate.
    split; by eapply (Forall_lookup_1 _ _ _ _ Hnz).
Qed.

(** The matrix the builder returns: zero on the diagonal, the pair distance
    above it, and the mirror image below. *)
Lemma calculate_line_distances_entries (lines : list segment) (m : string)
    (dm : matrix) :
  calculate_line_distances lines m = OK dm →
  square (length lines) dm
  ∧ ∀ i j, (i < length lines)%nat → (j < length lines)%nat →
      entry dm i j =
        if decide (i < j)%nat then returned (pair_distance lines m i j)
        else if decide (j < i)%nat then returned (pair_distance lines m j i)
        else Some (Fin 0).
Proof.
  rewrite calculate_line_distances_eq. unfold range at 1.
  rewrite Nat.sub_0_r. intros Hdm.
  pose proof (fill_rows lines m (length lines) 0%nat
                (np_zeros (length lines) (length lines))) as Hrows.
  cbv zeta in Hrows. rewrite Hdm in Hrows.
  destruct Hrows as (Hsq & _ & Hent); [lia|apply square_np_zeros|].
  split; [done|]. intros i j Hi Hj. rewrite Hent.
  repeat case_decide; try lia; try done. by apply entry_np_zeros.
Qed.

(** The builder returns for 'parallel', 'angle' and 'center' on any input,
    and for 'combined' and 'hausdorff' when no segment has zero length. *)
Lemma calculate_line_distances_total (lines : list segment) (m : string) :
  valid_method m →
  (m ∈ ["combined"; "hausdorff"] → Forall (λ s, ¬ zero_length s) lines) →
  ∃ dm, calculate_line_distances lines m = OK dm.
Proof.
  intros Hm Hnz. rewrite calculate_line_distances_eq. unfold range at 1.
  rewrite Nat.sub_0_r.
  pose proof (fill_rows lines m (length lines) 0%nat
                (np_zeros (length lines) (length lines))) as Hrows.
  cbv zeta in Hrows.
  match type of Hrows with
  | _ → _ → match ?t with _ => _ end => destruct t as [dm|e]
  end; [eauto|].
  destruct Hrows as (i & j & Hi & Hj & He); [lia|apply square_np_zeros|].
  destruct (pair_distance_total lines m i j Hm Hnz) as [d Hd]; [lia|lia|].
  congruence.
Qed.


(** ** Grouping *)

Lemma filter_ext_elem_of {A : Type} (P Q : A → Prop)
    `{!∀ x, Decision (P x)} `{!∀ x, Decision (Q x)} (l : list A) :
  (∀ x, x ∈ l → P x ↔ Q x) → filter P l = filter Q l.
Proof.
  induction l as [|x l IH]; intros HPQ; [done|].
  rewrite !filter_cons.
  rewrite IH by (intros y Hy; apply HPQ; by right).
  destruct (decide (P x)) as [HP|HP], (decide (Q x)) as [HQ|HQ];
    try done; exfalso; apply (HPQ x) in HP || apply (HPQ x) in HQ;
    (done || by left).
Qed.

Lemma elem_of_concat {A : Type} (gs : list (list A)) (k : A) :
  k ∈ concat gs ↔ ∃ g, g ∈ gs ∧ k ∈ g.
Proof.
  induction gs as [|g gs IH]; cbn [concat].
  - split; [by intros ?%elem_of_nil|by intros (g & ?%elem_of_nil & _)].
  - rewrite elem_of_app, IH. split.
    + intros [Hk|(g' & Hg' & Hk)]; [exists g|exists g'].
      * split; [by left|done].
      * split; [by right|done].
    + intros (g' & [->|Hg']%elem_of_cons & Hk); [by left|right; eauto].
Qed.

Lemma NoDup_concat_disjoint {A : Type} (gs : list (list A)) :
  NoDup (concat gs) →
  ∀ a b ga gb k, a ≠ b → gs !! a = Some ga → gs !! b = Some gb →
    k ∈ ga → k ∉ gb.
Proof.
  induction gs as [|g gs IH]; intros Hnd a b ga gb k Hab Ha Hb Hka Hkb.
  { by rewrite lookup_nil in Ha. }
  cbn [concat] in Hnd. apply NoDup_app in Hnd as (_ & Hdisj & Hnd).
  destruct a as [|a], b as [|b]; cbn in Ha, Hb; simplify_eq.
  - apply (Hdisj k Hka), elem_of_concat. exists gb.
    split; [by eapply list_elem_of_lookup_2|done].
  - apply (Hdisj k Hkb), elem_of_concat. exists ga.
    split; [by eapply list_elem_of_lookup_2|done].
  - apply (IH Hnd a b ga gb k); [congruence|done..].
Qed.

Section grouping.
Context (dm : matrix) (thr : xreal) (n : nat).
Hypothesis Hsq : square n dm.

(** The inner loop from column [s] on: the new members are the columns
    not visited before the pass and near the founder. *)
Lemma grow_group_steps (i : nat) (Hi : (i < n)%nat) (k : nat) :
  ∀ (s : nat) (visited : gset nat) (group : list nat),
  (s + k ≤ n)%nat →
  let new := filter (λ j, (j ∉ visited) ∧ near dm thr i j) (seq s k) in
  for_in (seq s k) (visited, group)
    (λ '(visited, group) j,
       if decide (j ∉ visited) then
         d ← mat_get dm i j;
         if xle d thr then OK (visited ∪ {[j]}, group ++ [j])
         else OK (visited, group)
       else OK (visited, group))
  = OK (visited ∪ list_to_set new, group ++ new).
Proof.
  induction k as [|k IH]; intros s visited group Hk new.
  - subst new. cbn. rewrite app_nil_r. do 2 f_equal.
    by rewrite union_empty_r_L.
  - cbn [seq for_in]. subst new. cbn [seq]. rewrite filter_cons.
    destruct (mat_get_in_range n dm i s) as [d Hd]; [done|lia|lia|].
    assert (Hnear : near dm thr i s = xle d thr)
      by (unfold near; by rewrite Hd).
    assert (Hlater : ∀ v : gset nat,
      filter (λ j, (j ∉ v ∪ {[s]}) ∧ near dm thr i j) (seq (S s) k) =
      filter (λ j, (j ∉ v) ∧ near dm thr i j) (seq (S s) k)).
    { intros v. apply filter_ext_elem_of.
      intros j Hj%elem_of_seq. rewrite not_elem_of_union, elem_of_singleton.
      intuition lia. }
    destruct (decide (s ∉ visited)) as [Hs|Hs].
    + rewrite Hd, bind_OK. destruct (xle d thr) eqn:Hle.
      * rewrite decide_True by (split; [done|by rewrite Hnear]).
        rewrite bind_OK, IH by lia. rewrite Hlater.
        f_equal. f_equal; [|by rewrite <- app_assoc].
        by rewrite list_to_set_cons, (assoc_L (∪)).
      * rewrite decide_False by (rewrite Hnear; intros [_ []]).
        rewrite bind_OK, IH by lia. done.
    + rewrite decide_False by tauto. rewrite bind_OK, IH by lia. done.
Qed.

Lemma grow_group_spec (i : nat) (visited : gset nat) (group : list nat) :
  (i < n)%nat →
  let new := filter (λ j, (j ∉ visited) ∧ near dm thr i j) (seq 0 n) in
  grow_group dm thr n i visited group =
    OK (visited ∪ list_to_set new, group ++ new).
Proof.
  intros Hi. unfold grow_group, range. rewrite Nat.sub_0_r.
  by apply grow_group_steps.
Qed.

Lemma joiners_visited (i : nat) (groups : list (list nat)) :
  filter (λ j, (j ∉ (list_to_set (concat groups) ∪ {[i]} : gset nat))
               ∧ near dm thr i j) (seq 0 n)
  = joiners dm thr i (i :: concat groups) (seq 0 n).
Proof.
  unfold joiners. apply list_filter_iff. intros j.
  rewrite not_elem_of_union, elem_of_list_to_set, elem_of_singleton,
    not_elem_of_cons. tauto.
Qed.

(** An index that is already in a group is skipped. *)
Lemma grouped_skip (t : nat) (visited : gset nat) (groups : list (list nat)) :
  grouped dm thr n t visited groups → t ∈ visited →
  grouped dm thr n (S t) visited groups.
Proof.
  intros (Hv & Hnd & Hlt & Hall & Hf) Ht.
  split; [done|]. split; [done|]. split; [done|]. split; [|done].
  intros k Hk. destruct (decide (k = t)) as [->|]; [|apply Hall; lia].
  rewrite Hv in Ht. by apply elem_of_list_to_set in Ht.
Qed.

(** An index outside every group founds the next one. *)
Lemma grouped_open (t : nat) (visited : gset nat) (groups : list (list nat)) :
  (t < n)%nat → grouped dm thr n t visited groups → t ∉ visited →
  let g := t :: joiners dm thr t (t :: concat groups) (seq 0 n) in
  grouped dm thr n (S t)
    (list_to_set (concat groups) ∪ {[t]}
     ∪ list_to_set (joiners dm thr t (t :: concat groups) (seq 0 n)))
    (groups ++ [g]).
Proof.
  intros Ht (Hv & Hnd & Hlt & Hall & Hf) Hnew g.
  assert (Htg : t ∉ concat groups).
  { intros Hin. apply Hnew. rewrite Hv. by apply elem_of_list_to_set. }
  assert (Hj : ∀ j, j ∈ joiners dm thr t (t :: concat groups) (seq 0 n) →
                    (j < n)%nat ∧ j ≠ t ∧ j ∉ concat groups).
  { intros j. unfold joiners.
    rewrite list_elem_of_filter, elem_of_seq, not_elem_of_cons.
    intuition lia. }
  assert (Hcat : concat (groups ++ [g]) = concat groups ++ g).
  { by rewrite concat_app, concat_cons, concat_nil, app_nil_r. }
  split; [|split; [|split; [|split]]].
  - rewrite Hcat, list_to_set_app_L. subst g.
    by rewrite list_to_set_cons, (assoc_L (∪)).
  - rewrite Hcat. apply NoDup_app. split; [done|]. split.
    + intros x Hx. subst g. rewrite not_elem_of_cons. split.
      * by intros ->.
      * intros Hxj. by apply Hj in Hxj as (_ & _ & ?).
    + subst g. apply NoDup_cons. split.
      * intros Hin. by apply Hj in Hin as (_ & ? & _).
      * apply NoDup_filter, NoDup_seq.
  - intros k. rewrite Hcat, elem_of_app. intros [Hk|Hk]; [by apply Hlt|].
    subst g. apply elem_of_cons in Hk as [->|Hk]; [done|].
    by apply Hj in Hk as (? & _).
  - intros k Hk. rewrite Hcat, elem_of_app.
    destruct (decide (k = t)) as [->|]; [right; by left|].
    left. apply Hall. lia.
  - intros a g' Hg'. destruct (decide (a < length groups)%nat) as [Ha|Ha].
    + rewrite lookup_app_l in Hg' by done.
      rewrite take_app_le by lia. by apply Hf.
    + rewrite lookup_app_r in Hg' by lia.
      assert (a = length groups) as ->.
      { apply lookup_lt_Some in Hg'. cbn in Hg'. lia. }
      rewrite Nat.sub_diag in Hg'. injection Hg' as <-.
      rewrite take_app_length. exists t. split; [done|]. split; [done|].
      split; [done|]. done.
Qed.

Lemma group_loop_steps (k : nat) :
  ∀ (s : nat) (visited : gset nat) (groups : list (list nat)),
  (s + k ≤ n)%nat → grouped dm thr n s visited groups →
  ∃ visited' groups',
    for_in (seq s k) (visited, groups)
      (λ '(visited, groups) i,
         if decide (i ∈ visited) then OK (visited, groups)
         else
           let group := [i] in
           let visited := visited ∪ {[i]} in
           '(visited, group) ← grow_group dm thr n i visited group;
           OK (visited, groups ++ [group]))
    = OK (visited', groups')
    ∧ grouped dm thr n (s + k) visited' groups'.
Proof.
  induction k as [|k IH]; intros s visited groups Hk Hinv.
  - exists visited, groups. rewrite Nat.add_0_r. done.
  - cbn [seq for_in]. replace (s + S k)%nat with (S s + k)%nat by lia.
    destruct (decide (s ∈ visited)) as [Hs|Hs].
    + rewrite bind_OK. apply (IH (S s) visited groups); [lia|].
      by apply grouped_skip.
    + cbv zeta. rewrite grow_group_spec by lia.
      cbv zeta. rewrite !bind_OK.
      pose proof Hinv as (Hv & _).
      rewrite Hv, joiners_visited.
      eapply IH; [lia|].
      apply (grouped_open s visited); [lia|done|done].
Qed.

Lemma group_loop_spec :
  ∃ visited groups,
    group_loop dm thr n = OK (visited, groups)
    ∧ grouped dm thr n n visited groups.
Proof.
  unfold group_loop, range. rewrite Nat.sub_0_r.
  apply (group_loop_steps n 0%nat); [lia|].
  split; [done|]. split; [constructor|]. split; [by intros k ?%elem_of_nil|].
  split; [intros; lia|]. by intros a g ?.
Qed.
End grouping.

Lemma find_similar_lines_eq (lines : list segment) (thr : xreal) (m : string) :
  find_similar_lines lines thr m =
    (dm ← calculate_line_distances lines m;
     st ← group_loop dm thr (length lines);
     OK st.2).
Proof.
  unfold find_similar_lines.
  destruct (calculate_line_distances lines m) as [dm|]; [|done].
  rewrite !bind_OK. by destruct (group_loop dm thr (length lines)) as [[? ?]|].
Qed.

(** [find_similar_lines] returns exactly when the matrix builder does, and
    then the loop invariant holds at the end. *)
Lemma find_similar_lines_grouped (lines : list segment) (thr : xreal)
    (m : string) :
  match calculate_line_distances lines m with
  | OK dm =>
      ∃ visited groups,
        find_similar_lines lines thr m = OK groups
        ∧ grouped dm thr (length lines) (length lines) visited groups
  | Raise e => find_similar_lines lines thr m = Raise e
  end.
Proof.
  rewrite find_similar_lines_eq.
  destruct (calculate_line_distances lines m) as [dm|e] eqn:Hdm; [|done].
  destruct (calculate_line_distances_entries _ _ _ Hdm) as [Hsq _].
  destruct (group_loop_spec dm thr (length lines) Hsq)
    as (visited & groups & Hloop & Hinv).
  exists visited, groups. by rewrite bind_OK, Hloop.
Qed.

Lemma find_similar_lines_in_range (lines : list segment) (thr : xreal)
    (m : string) (groups : list (list nat)) :
  find_similar_lines lines thr m = OK groups →
  Forall (λ g, g ≠ [] ∧ Forall (λ i, (i < length lines)%nat) g) groups.
Proof.
  intros Hgroups. pose proof (find_similar_lines_grouped lines thr m) as Hg.
  destruct (calculate_line_distances lines m) as [dm|e]; [|congruence].
  destruct Hg as (visited & groups' & Hgroups' & Hinv).
  assert (groups' = groups) as -> by congruence.
  destruct Hinv as (_ & _ & Hlt & _ & Hf).
  apply Forall_forall. intros g Hg. split.
  - intros ->. apply list_elem_of_lookup in Hg as [a Ha].
    by destruct (Hf a [] Ha) as (i & _ & _ & _ & ?).
  - apply Forall_forall. intros i Hi. apply Hlt, elem_of_concat. eauto.
Qed.

Lemma find_similar_lines_total (lines : list segment) (thr : xreal)
    (m : string) :
  valid_method m →
  (m ∈ ["combined"; "hausdorff"] → Forall (λ s, ¬ zero_length s) lines) →
  ∃ groups, find_similar_lines lines thr m = OK groups.
Proof.
  intros Hm Hnz.
  destruct (calculate_line_distances_total lines m Hm Hnz) as [dm Hdm].
  pose proof (find_similar_lines_grouped lines thr m) as Hg.
  rewrite Hdm in Hg. destruct Hg as (_ & groups & ? & _). eauto.
Qed.

(** C1.  For a valid method, the groups [find_similar_lines] returns are
    pairwise disjoint and non-empty, and their union is {0, ..., N-1}, every
    index once.  Each group is its founder [i], the least index outside the
    earlier groups, followed by exactly the [j] outside the earlier groups
    with [distance_matrix[i][j] <= threshold]: the test is against the
    founder alone, never against a member added in the same pass.  The
    function returns whenever the matrix builder does. *)
Theorem find_similar_lines_partition (lines : list segment) (thr : xreal)
    (m : string) :
  valid_method m →
  (∀ dm, calculate_line_distances lines m = OK dm →
         ∃ groups, find_similar_lines lines thr m = OK groups)
  ∧ ∀ groups, find_similar_lines lines thr m = OK groups →
      (∀ a b ga gb k, a ≠ b → groups !! a = Some ga → groups !! b = Some gb →
                      k ∈ ga → k ∉ gb)
      ∧ (∀ g, g ∈ groups → g ≠ [])
      ∧ (∀ k, (∃ g, g ∈ groups ∧ k ∈ g) ↔ (k < length lines)%nat)
      ∧ NoDup (concat groups)
      ∧ ∃ dm, calculate_line_distances lines m = OK dm
          ∧ ∀ a g, groups !! a = Some g →
              founded dm thr (length lines) (take a groups) g.
Proof.
  intros _. pose proof (find_similar_lines_grouped lines thr m) as Hg.
  split.
  - intros dm Hdm. rewrite Hdm in Hg. destruct Hg as (_ & groups & ? & _).
    eauto.
  - intros groups Hgroups.
    destruct (calculate_line_distances lines m) as [dm|e]; [|congruence].
    destruct Hg as (visited & groups' & Hgroups' & Hinv).
    assert (groups' = groups) as -> by congruence.
    destruct Hinv as (_ & Hnd & Hlt & Hall & Hf).
    split; [by apply NoDup_concat_disjoint|]. split; [|split; [|split]].
    + intros g Hg ->. apply list_elem_of_lookup in Hg as [a Ha].
      by destruct (Hf a [] Ha) as (i & _ & _ & _ & ?).
    + intros k. rewrite <- elem_of_concat. split; [apply Hlt|apply Hall].
    + done.
    + exists dm. split; [done|]. apply Hf.
Qed.

(** ** Reduction *)

Section max_key.
Context {A : Type} (key : A → result R) (f : A → R).
Hypothesis Hkey : ∀ x, key x = OK (f x).

Lemma max_key_scan_spec (xs : list A) : ∀ best,
  ∃ pos r, max_key_scan key best (f best) xs = OK r
           ∧ first_max f (best :: xs) pos r.
Proof.
  induction xs as [|x xs IH]; intros best.
  - exists 0%nat, best. split; [done|]. split; [done|]. split.
    + intros y ->%list_elem_of_singleton. lra.
    + intros; lia.
  - cbn [max_key_scan]. rewrite Hkey, bind_OK.
    destruct (decide (f x > f best)) as [Hgt|Hle].
    + destruct (IH x) as (pos & r & -> & Hpos & Hmax & Hfirst).
      exists (S pos), r. split; [done|]. split; [done|].
      assert (Hxr : f x <= f r) by (apply Hmax; by left).
      split.
      * intros y [->|Hy]%elem_of_cons; [lra|by apply Hmax].
      * intros [|pos'] y Hlt Hy; cbn in Hy; simplify_eq; [lra|].
        apply (Hfirst pos'); [lia|done].
    + destruct (IH best) as (pos & r & -> & Hpos & Hmax & Hfirst).
      destruct pos as [|pos].
      * cbn in Hpos. simplify_eq. exists 0%nat, r.
        split; [done|]. split; [done|]. split; [|intros; lia].
        intros y [->|[->|Hy]%elem_of_cons]%elem_of_cons; [lra|lra|].
        apply Hmax. by right.
      * exists (S (S pos)), r. split; [done|]. split; [done|].
        assert (Hbr : f best < f r) by (apply (Hfirst 0%nat); [lia|done]).
        split.
        -- intros y [->|[->|Hy]%elem_of_cons]%elem_of_cons; [lra|lra|].
           apply Hmax. by right.
        -- intros [|[|pos']] y Hlt Hy; cbn in Hy; simplify_eq; [lra|lra|].
           apply (Hfirst (S pos')); [lia|done].
Qed.

Lemma py_max_key_spec (xs : list A) :
  xs ≠ [] → ∃ pos r, py_max_key xs key = OK r ∧ first_max f xs pos r.
Proof.
  destruct xs as [|x xs]; [done|]. intros _.
  cbn [py_max_key]. rewrite Hkey, bind_OK. apply max_key_scan_spec.
Qed.
End max_key.

Section reduction.
Context (lines : list segment) (keep_longest : bool).

Lemma keep_one_spec (unique_lines : list segment) (group : list nat) :
  group ≠ [] → Forall (λ i, (i < length lines)%nat) group →
  ∃ r, keep_one lines keep_longest unique_lines group
         = OK (unique_lines ++ [r])
       ∧ representative lines keep_longest group r
       ∧ r ∈ lines.
Proof.
  intros Hne Hidx. unfold keep_one, representative.
  destruct keep_longest.
  - destruct (mapM_getitem lines group Hidx) as (members & -> & Hmem).
    rewrite bind_OK.
    destruct (py_max_key_spec line_length segment_length line_length_OK
                members) as (pos & r & -> & Hpos & Hmax & Hfirst).
    { intros ->. apply Forall2_nil_inv_r in Hmem. done. }
    rewrite bind_OK. exists r. split; [done|].
    destruct (Forall2_lookup_r _ _ _ _ _ Hmem Hpos) as (i & Hi & Hri).
    split; [|by eapply list_elem_of_lookup_2].
    exists pos, i. split; [done|]. split; [done|]. split.
    + intros j s Hj Hs. apply Hmax.
      apply list_elem_of_lookup in Hj as [p Hp].
      destruct (Forall2_lookup_l _ _ _ _ _ Hmem Hp) as (s' & Hs' & Hjs').
      assert (s' = s) as -> by congruence.
      by eapply list_elem_of_lookup_2.
    + intros pos' j s Hlt Hj Hs.
      destruct (Forall2_lookup_l _ _ _ _ _ Hmem Hj) as (s' & Hs' & Hjs').
      assert (s' = s) as -> by congruence.
      by apply (Hfirst pos').
  - destruct group as [|i group]; [done|].
    apply Forall_cons in Hidx as [Hi _].
    destruct (getitem_lt lines i Hi) as (r & Hr & Hget).
    cbn [getitem lookup list_lookup]. rewrite bind_OK, Hget, bind_OK.
    exists r. split; [done|]. split; [by exists i|].
    by eapply list_elem_of_lookup_2.
Qed.

Lemma keep_all_spec (groups : list (list nat)) : ∀ unique_lines,
  Forall (λ g, g ≠ [] ∧ Forall (λ i, (i < length lines)%nat) g) groups →
  ∃ reps, for_in groups unique_lines (keep_one lines keep_longest)
            = OK (unique_lines ++ reps)
          ∧ Forall2 (representative lines keep_longest) groups reps
          ∧ ∀ s, s ∈ reps → s ∈ lines.
Proof.
  induction groups as [|g groups IH]; intros unique_lines Hgs.
  - exists []. rewrite app_nil_r. split; [done|]. split; [constructor|].
    by intros s ?%elem_of_nil.
  - apply Forall_cons in Hgs as [[Hne Hidx] Hgs].
    destruct (keep_one_spec unique_lines g Hne Hidx) as (r & Hr & Hrep & Hin).
    destruct (IH (unique_lines ++ [r]) Hgs) as (reps & Hreps & Hall & Hins).
    exists (r :: reps). cbn [for_in]. rewrite Hr, bind_OK, Hreps.
    split; [by rewrite <- app_assoc|]. split; [by constructor|].
    intros s [->|Hs]%elem_of_cons; auto.
Qed.
End reduction.

Lemma remove_similar_lines_eq (lines : list segment) (thr : xreal)
    (m : string) (keep_longest : bool) :
  remove_similar_lines lines thr m keep_longest =
    (groups ← find_similar_lines lines thr m;
     for_in groups [] (keep_one lines keep_longest)).
Proof.
  unfold remove_similar_lines.
  destruct (find_similar_lines lines thr m) as [groups|]; [|done].
  rewrite !bind_OK. apply for_in_ext. intros out g. unfold keep_one.
  by destruct keep_longest.
Qed.


(** ** The worked example, run *)

Lemma sqrt_horizontal (a b : R) : a < b → sqrt (0 ^ 2 + (a - b) ^ 2) = b - a.
Proof.
  intros Hab. replace (0 ^ 2 + (a - b) ^ 2) with ((b - a) * (b - a)) by ring.
  apply sqrt_square. lra.
Qed.

(** A left-to-right horizontal segment at height [y] has the canonical line
    -y' + y = 0. *)
Lemma canonical_of_horizontal (a b y : R) :
  a < b → canonical_of (a, y, b, y) = (0, -1, y).
Proof.
  intros Hab. unfold canonical_of. cbv zeta.
  replace (y - y) with 0 by ring. rewrite (sqrt_horizontal a b Hab).
  rewrite decide_True by lra. f_equal; [f_equal|]; field; lra.
Qed.

Lemma segment_length_horizontal (a b y : R) :
  a < b → segment_length (a, y, b, y) = b - a.
Proof.
  intros Hab. unfold segment_length.
  replace ((b - a) ^ 2 + (y - y) ^ 2) with ((b - a) * (b - a)) by ring.
  apply sqrt_square. lra.
Qed.

Lemma lines_distance_horizontal (y1 y2 : R) (p1 p2 : option segment) :
  lines_distance (0, -1, y1) (0, -1, y2) p1 p2 "parallel"
    = OK (Fin (Rabs (y2 - y1))).
Proof.
  rewrite lines_distance_parallel.
  replace (0 * 0 + -1 * -1) with 1 by lra.
  by rewrite Rabs_R1, decide_False by lra.
Qed.

Lemma pair_distance_parallel_horizontal (lines : list segment) (i j : nat)
    (a b y a' b' y' : R) :
  lines !! i = Some (a, y, b, y) → lines !! j = Some (a', y', b', y') →
  a < b → a' < b' →
  pair_distance lines "parallel" i j = OK (Fin (Rabs (y' - y))).
Proof.
  intros Hi Hj Hab Hab'. rewrite (pair_distance_eq _ _ _ _ _ _ Hi Hj).
  rewrite !canonical_of_horizontal by done. apply lines_distance_horizontal.
Qed.

Ltac run_matrix :=
  repeat first
    [ rewrite bind_OK
    | rewrite decide_True by lia
    | progress cbn -[fill_pair Rabs Rminus] ].

Ltac solve_real := rewrite ?Rabs_pos_eq by lra; lra.

Ltac run_groups :=
  repeat first
    [ rewrite bind_OK
    | rewrite decide_True by (set_unfold; intuition lia)
    | rewrite decide_False by (set_unfold; intuition lia)
    | rewrite bool_decide_eq_true_2 by solve_real
    | rewrite bool_decide_eq_false_2 by solve_real
    | progress cbn -[Rabs Rminus union singleton empty elem_of] ].

Ltac run_reduction :=
  repeat first
    [ rewrite bind_OK
    | rewrite line_length_OK
    | rewrite segment_length_horizontal by lra
    | rewrite decide_True by lra
    | rewrite decide_False by lra
    | progress cbn -[line_length Rminus] ].

Example example_distance_matrix :
  calculate_line_distances example_lines "parallel" = OK example_matrix.
Proof.
  rewrite calculate_line_distances_eq.
  cbn [example_lines length range Nat.sub Nat.add seq for_in].
  rewrite (fill_pair_OK _ _ 0 1 _ (Fin (Rabs (1 - 0))))
    by (eapply pair_distance_parallel_horizontal; [done|done|lra|lra]).
  run_matrix.
  rewrite (fill_pair_OK _ _ 0 2 _ (Fin (Rabs (9 - 0))))
    by (eapply pair_distance_parallel_horizontal; [done|done|lra|lra]).
  run_matrix.
  rewrite (fill_pair_OK _ _ 1 2 _ (Fin (Rabs (9 - 1))))
    by (eapply pair_distance_parallel_horizontal; [done|done|lra|lra]).
  run_matrix. reflexivity.
Qed.

(** With threshold 2 the first two segments form one group, the third its
    own. *)
Example example_groups :
  find_similar_lines example_lines (Fin 2) "parallel" = OK [[0; 1]; [2]]%nat.
Proof.
  rewrite find_similar_lines_eq, example_distance_matrix, bind_OK.
  unfold group_loop, grow_group, example_matrix.
  run_groups. reflexivity.
Qed.

(** The longest member of the first group is its second one. *)
Example example_keep_longest :
  remove_similar_lines example_lines (Fin 2) "parallel" true
    = OK [(0, 1, 3, 1); (0, 9, 1, 9)].
Proof.
  rewrite remove_similar_lines_eq, example_groups, bind_OK.
  unfold keep_one, example_lines. run_reduction. reflexivity.
Qed.

Example example_keep_first :
  remove_similar_lines example_lines (Fin 2) "parallel" false
    = OK [(0, 0, 1, 0); (0, 9, 1, 9)].
Proof.
  rewrite remove_similar_lines_eq, example_groups, bind_OK. reflexivity.
Qed.

(** ** The end-to-end scenario, run under 'combined' *)

Lemma py_mod_self (y : R) : 0 < y → py_mod y y = OK 0.
Proof.
  intros Hy. unfold py_mod. rewrite decide_False by lra.
  replace (y / y) with 1 by (field; lra).
  replace (Int_part 1) with 1%Z; [f_equal; lra|].
  apply Int_part_spec. lra.
Qed.

(** The normal (0, -1) points down: atan2(0, -1) = pi, and pi % pi = 0. *)
Lemma line_angle_horizontal (c : R) : line_angle (0, -1, c) = OK 0.
Proof.
  unfold line_angle. rewrite decide_False by lra.
  unfold math_atan2. rewrite decide_False, decide_True, decide_False by lra.
  replace (- 0 / -1) with 0 by (field; lra). rewrite atan_0, Rplus_0_l.
  apply py_mod_self, PI_RGT_0.
Qed.

Lemma angle_difference_same (a : R) : angle_difference a a = 0.
Proof.
  unfold angle_difference, py_min. replace (a - a) with 0 by ring.
  rewrite Rabs_R0. pose proof PI_RGT_0. rewrite decide_False by lra. done.
Qed.

Lemma point_to_line_distance_horizontal (x y c : R) :
  point_to_line_distance (x, y) (0, -1, c) = OK (Rabs (c - y)).
Proof.
  rewrite point_to_line_distance_eq.
  replace (0 ^ 2 + (-1) ^ 2) with 1 by ring. rewrite sqrt_1.
  rewrite py_div_nonzero by lra. f_equal.
  replace (0 * x + -1 * y + c) with (c - y) by ring. field.
Qed.

Lemma lines_distance_combined_horizontal (a b y y' : R) :
  lines_distance (0, -1, y) (0, -1, y')
    (Some (a, y, b, y)) (Some (a, y', b, y')) "combined"
  = OK (combined_offset y y').
Proof.
  rewrite lines_distance_combined, !line_angle_horizontal, !bind_OK.
  rewrite angle_difference_same, math_sqrt_squares, bind_OK.
  unfold line_center. rewrite !point_to_line_distance_horizontal, !bind_OK.
  cbn [fst snd]. unfold combined_offset.
  replace (((a + b) / 2 - (a + b) / 2) ^ 2 + ((y + y) / 2 - (y' + y') / 2) ^ 2)
    with (Rsqr (y' - y)) by (unfold Rsqr; field).
  rewrite sqrt_Rsqr_abs.
  replace (y - (y' + y') / 2) with (y - y') by field.
  replace (y' - (y + y) / 2) with (y' - y) by field.
  by rewrite (Rabs_minus_sym y y').
Qed.

Lemma pair_distance_combined_horizontal (lines : list segment) (i j : nat)
    (a b y y' : R) :
  lines !! i = Some (a, y, b, y) → lines !! j = Some (a, y', b, y') → a < b →
  pair_distance lines "combined" i j = OK (combined_offset y y').
Proof.
  intros Hi Hj Hab. rewrite (pair_distance_eq _ _ _ _ _ _ Hi Hj).
  rewrite !canonical_of_horizontal by done.
  apply lines_distance_combined_horizontal.
Qed.

(** The three pairwise distances are 0.75, 30 and 29.25. *)
Example scenario_distance_matrix :
  calculate_line_distances scenario_lines "combined" = OK scenario_matrix.
Proof.
  rewrite calculate_line_distances_eq.
  cbn [scenario_lines length range Nat.sub Nat.add seq for_in].
  rewrite (fill_pair_OK _ _ 0 1 _ (combined_offset 0 0.5))
    by (eapply pair_distance_combined_horizontal; [done|done|lra]).
  run_matrix.
  rewrite (fill_pair_OK _ _ 0 2 _ (combined_offset 0 20))
    by (eapply pair_distance_combined_horizontal; [done|done|lra]).
  run_matrix.
  rewrite (fill_pair_OK _ _ 1 2 _ (combined_offset 0.5 20))
    by (eapply pair_distance_combined_horizontal; [done|done|lra]).
  run_matrix. reflexivity.
Qed.

(** With threshold 5 the first two segments merge and the third stands
    alone. *)
Example scenario_groups :
  find_similar_lines scenario_lines (Fin 5) "combined" = OK [[0; 1]; [2]]%nat.
Proof.
  rewrite find_similar_lines_eq, scenario_distance_matrix, bind_OK.
  unfold group_loop, grow_group, scenario_matrix, combined_offset.
  run_groups. reflexivity.
Qed.

(** Both members of the first group have length 10: the first one is kept. *)
Example scenario_reduction :
  remove_similar_lines scenario_lines (Fin 5) "combined" true
    = OK [(0, 0, 10, 0); (0, 20, 10, 20)].
Proof.
  rewrite remove_similar_lines_eq, scenario_groups, bind_OK.
  unfold keep_one, scenario_lines. run_reduction. reflexivity.
Qed.

(** ** The claims at the worked example *)


Lemma find_similar_lines_partition_witness :
  find_similar_lines example_lines (Fin 2) "parallel" = OK [[0; 1]; [2]]%nat
  ∧ NoDup (concat [[0; 1]; [2]]%nat)
  ∧ (∀ k, (∃ g, g ∈ [[0; 1]; [2]]%nat ∧ k ∈ g) ↔ (k < 3)%nat)
  ∧ founded example_matrix (Fin 2) 3 [[0; 1]%nat] [2%nat].
Proof.
  destruct (find_similar_lines_partition example_lines (Fin 2) "parallel")
    as [_ Hspec].
  { rewrite valid_method_cases. auto. }
  destruct (Hspec _ example_groups)
    as (_ & _ & Hunion & Hnd & dm & Hdm & Hfounded).
  split; [apply example_groups|]. split; [done|]. split; [done|].
  rewrite example_distance_matrix in Hdm. injection Hdm as <-.
  apply (Hfounded 1%nat). done.
Defined.


(** * Further properties of the code *)

(** ** Symmetry of the distance *)





(** ** The range of 'angle' *)


(** ** Direction of the segments, and the entries of the matrix *)

(** X9.  Reversing either segment, or both, before canonicalisation leaves
    the distance unchanged under 'center' and 'hausdorff'. *)
Theorem lines_distance_direction_free (s1 s2 : segment)
    (c1 c2 c1r c2r : canonical) (m : string) :
  m ∈ ["center"; "hausdorff"] →
  line_to_canonical s1 = OK c1 → line_to_canonical s2 = OK c2 →
  line_to_canonical (reverse_segment s1) = OK c1r →
  line_to_canonical (reverse_segment s2) = OK c2r →
  lines_distance c1r c2 (Some (reverse_segment s1)) (Some s2) m =
    lines_distance c1 c2 (Some s1) (Some s2) m
  ∧ lines_distance c1 c2r (Some s1) (Some (reverse_segment s2)) m =
      lines_distance c1 c2 (Some s1) (Some s2) m
  ∧ lines_distance c1r c2r (Some (reverse_segment s1))
      (Some (reverse_segment s2)) m =
      lines_distance c1 c2 (Some s1) (Some s2) m.
Proof.
  intros Hm H1 H2. rewrite !line_to_canonical_reverse, H1, H2, !fmap_OK.
  intros [= <-] [= <-].
  assert (Hm' : m ∈ ["angle"; "center"; "combined"; "hausdorff"]).
  { revert Hm. rewrite !elem_of_cons. tauto. }
  destruct (lines_distance_reversal_invariant c1 c2 s1 s2 m Hm') as [Ha Hb].
  destruct (lines_distance_reversal_invariant c1 (negate_line c2) s1
              (reverse_segment s2) m Hm') as [Hc _].
  split; [done|]. split; [done|]. by rewrite Hc.
Qed.

Lemma lines_distance_direction_free_witness :
  lines_distance (canonical_of (reverse_segment (0, 0, 1, 0)))
    (canonical_of (0, 1, 3, 1)) (Some (reverse_segment (0, 0, 1, 0)))
    (Some (0, 1, 3, 1)) "hausdorff"
  = lines_distance (canonical_of (0, 0, 1, 0)) (canonical_of (0, 1, 3, 1))
      (Some (0, 0, 1, 0)) (Some (0, 1, 3, 1)) "hausdorff".
Proof.
  eapply (lines_distance_direction_free (0, 0, 1, 0) (0, 1, 3, 1)).
  - rewrite !elem_of_cons. auto.
  - apply line_to_canonical_OK.
  - apply line_to_canonical_OK.
  - apply line_to_canonical_OK.
  - apply (line_to_canonical_OK (reverse_segment (0, 1, 3, 1))).
Defined.

(** What the two nested loops did, pair by pair. *)
Lemma calculate_line_distances_pairs (lines : list segment) (m : string) :
  match calculate_line_distances lines m with
  | OK dm =>
      ∀ i j, (i < j < length lines)%nat →
             ∃ d, pair_distance lines m i j = OK d
  | Raise e =>
      ∃ i j, (i < j < length lines)%nat ∧ pair_distance lines m i j = Raise e
  end.
Proof.
  rewrite calculate_line_distances_eq. unfold range at 1.
  rewrite Nat.sub_0_r.
  pose proof (fill_rows lines m (length lines) 0%nat
                (np_zeros (length lines) (length lines))) as Hrows.
  cbv zeta in Hrows.
  match type of Hrows with
  | _ → _ → match ?t with _ => _ end => destruct t as [dm|e]
  end.
  - destruct Hrows as (_ & Hall & _); [lia|apply square_np_zeros|].
    intros i j Hij. apply Hall; lia.
  - destruct Hrows as (i & j & Hi & Hj & He); [lia|apply square_np_zeros|].
    exists i, j. split; [lia|done].
Qed.

(** X10.  Off the diagonal, the entry of the returned matrix is the distance of
    the two canonicalised segments, with the raw segments passed along
    exactly for the methods that need them. *)
Theorem calculate_line_distances_entry (lines : list segment) (m : string)
    (dm : matrix) (i j : nat) (si sj : segment) :
  calculate_line_distances lines m = OK dm →
  (i < j)%nat → lines !! i = Some si → lines !! j = Some sj →
  ∃ ci cj d,
    line_to_canonical si = OK ci ∧ line_to_canonical sj = OK cj
    ∧ lines_distance ci cj (if needs_points m then Some si else None)
        (if needs_points m then Some sj else None) m = OK d
    ∧ mat_get dm i j = OK d ∧ mat_get dm j i = OK d.
Proof.
  intros Hdm Hij Hi Hj.
  pose proof (lookup_lt_Some _ _ _ Hi). pose proof (lookup_lt_Some _ _ _ Hj).
  exists (canonical_of si), (canonical_of sj).
  pose proof (calculate_line_distances_pairs lines m) as Hp.
  rewrite Hdm in Hp. destruct (Hp i j) as [d Hd]; [lia|].
  exists d. rewrite !line_to_canonical_OK.
  split; [done|]. split; [done|].
  rewrite <- (pair_distance_eq _ _ _ _ _ _ Hi Hj). split; [done|].
  destruct (calculate_line_distances_entries _ _ _ Hdm) as [_ Hent].
  rewrite !mat_get_entry, !Hent by lia.
  rewrite decide_True by lia.
  rewrite (decide_False (P := (j < i)%nat)), decide_True by lia.
  by rewrite Hd.
Qed.

Lemma calculate_line_distances_entry_witness :
  ∃ ci cj d,
    line_to_canonical (0, 0, 1, 0) = OK ci
    ∧ line_to_canonical (0, 9, 1, 9) = OK cj
    ∧ lines_distance ci cj None None "parallel" = OK d
    ∧ mat_get example_matrix 0 2 = OK d ∧ mat_get example_matrix 2 0 = OK d.
Proof.
  apply (calculate_line_distances_entry example_lines "parallel"
           example_matrix 0 2 _ _ example_distance_matrix); [lia|done|done].
Defined.

(** ** Edge cases of the batch functions *)

Lemma find_similar_lines_Raise (lines : list segment) (thr : xreal)
    (m : string) (e : exn) :
  calculate_line_distances lines m = Raise e →
  find_similar_lines lines thr m = Raise e.
Proof.
  intros He. pose proof (find_similar_lines_grouped lines thr m) as Hg.
  by rewrite He in Hg.
Qed.

Lemma remove_similar_lines_Raise (lines : list segment) (thr : xreal)
    (m : string) (keep_longest : bool) (e : exn) :
  calculate_line_distances lines m = Raise e →
  remove_similar_lines lines thr m keep_longest = Raise e.
Proof.
  intros He. rewrite remove_similar_lines_eq.
  by rewrite (find_similar_lines_Raise _ _ _ _ He).
Qed.

(** X11.  With fewer than two segments no distance is computed.  Whenever
    the matrix builder returns on such an input, whatever the method string,
    the threshold and the segment, the matrix is all zeros, the only index
    is its own group and the input comes back unchanged. *)
Theorem fewer_than_two_segments (lines : list segment) (thr : xreal)
    (m : string) (keep_longest : bool) (dm : matrix) :
  (length lines ≤ 1)%nat →
  calculate_line_distances lines m = OK dm →
  dm = np_zeros (length lines) (length lines)
  ∧ find_similar_lines lines thr m = OK ((λ i, [i]) <$> seq 0 (length lines))
  ∧ remove_similar_lines lines thr m keep_longest = OK lines.
Proof.
  intros Hlen Hret.
  assert (Hdm : calculate_line_distances lines m =
                  OK (np_zeros (length lines) (length lines))).
  { rewrite calculate_line_distances_eq.
    destruct lines as [|s [|s' lines]]; [done|done|cbn in Hlen; lia]. }
  assert (Hg : find_similar_lines lines thr m =
                 OK ((λ i, [i]) <$> seq 0 (length lines))).
  { rewrite find_similar_lines_eq, Hdm, bind_OK.
    destruct lines as [|s [|s' lines]]; [done| |cbn in Hlen; lia].
    unfold group_loop, grow_group. cbn [length range Nat.sub seq for_in].
    rewrite decide_False by (set_unfold; tauto).
    rewrite decide_False by (set_unfold; intuition lia). done. }
  split; [congruence|]. split; [done|].
  rewrite remove_similar_lines_eq, Hg, bind_OK.
  destruct lines as [|s [|s' lines]]; [done| |cbn in Hlen; lia].
  unfold keep_one. destruct keep_longest; [|done].
  cbn [length seq fmap list_fmap for_in mapM].
  cbn [getitem lookup list_lookup]. rewrite !bind_OK.
  cbn [mret result_ret py_max_key]. by rewrite line_length_OK.
Qed.

Lemma fewer_than_two_segments_witness :
  calculate_line_distances [(1, 1, 1, 1)] "bogus" = OK [[Fin 0]]
  ∧ find_similar_lines [(1, 1, 1, 1)] (Fin 0) "bogus" = OK [[0%nat]]
  ∧ remove_similar_lines [(1, 1, 1, 1)] (Fin 0) "bogus" true
    = OK [(1, 1, 1, 1)].
Proof.
  assert (Hret : calculate_line_distances [(1, 1, 1, 1)] "bogus"
                 = OK [[Fin 0]]) by (by rewrite calculate_line_distances_eq).
  destruct (fewer_than_two_segments [(1, 1, 1, 1)] (Fin 0) "bogus" true
              [[Fin 0]]) as (_ & Hg & Hout); [cbn; lia|exact Hret|].
  split; [exact Hret|]. split; [exact Hg|exact Hout].
Defined.

(** X12.  With two segments or more, a method string outside the five tags
    is never accepted: all three batch functions raise, and the same
    exception, which is [UnknownMethod] with that string whenever every
    segment can be canonicalised. *)
Theorem unknown_method_aborts (lines : list segment) (thr : xreal)
    (m : string) (keep_longest : bool) :
  ¬ valid_method m → (2 ≤ length lines)%nat →
  ∃ e, calculate_line_distances lines m = Raise e
       ∧ find_similar_lines lines thr m = Raise e
       ∧ remove_similar_lines lines thr m keep_longest = Raise e
       ∧ (Forall (λ s, ∃ c, line_to_canonical s = OK c) lines →
          e = UnknownMethod m).
Proof.
  intros Hm Hlen.
  assert (Hpd : ∀ i j, (i < j < length lines)%nat →
                 pair_distance lines m i j = Raise (UnknownMethod m)).
  { intros i j Hij.
    destruct (lookup_lt_is_Some_2 lines i) as [si Hsi]; [lia|].
    destruct (lookup_lt_is_Some_2 lines j) as [sj Hsj]; [lia|].
    rewrite (pair_distance_eq _ _ _ _ _ _ Hsi Hsj).
    by apply lines_distance_unknown. }
  assert (Hdm : calculate_line_distances lines m = Raise (UnknownMethod m)).
  { pose proof (calculate_line_distances_pairs lines m) as Hp.
    destruct (calculate_line_distances lines m) as [dm|e].
    - destruct (Hp 0%nat 1%nat) as [d Hd]; [lia|].
      rewrite Hpd in Hd by lia. discriminate.
    - destruct Hp as (i & j & Hij & He). rewrite Hpd in He by done.
      by injection He as <-. }
  exists (UnknownMethod m). split; [done|].
  split; [by apply find_similar_lines_Raise|].
  split; [by apply remove_similar_lines_Raise|done].
Qed.

Lemma unknown_method_aborts_witness :
  ∃ e, calculate_line_distances example_lines "bogus" = Raise e
       ∧ find_similar_lines example_lines (Fin 2) "bogus" = Raise e
       ∧ remove_similar_lines example_lines (Fin 2) "bogus" true = Raise e
       ∧ e = UnknownMethod "bogus".
Proof.
  destruct (unknown_method_aborts example_lines (Fin 2) "bogus" true)
    as (e & Hdm & Hg & Hout & He).
  - rewrite valid_method_cases. intros [H|[H|[H|[H|H]]]]; discriminate H.
  - cbn. lia.
  - exists e. split; [exact Hdm|]. split; [exact Hg|]. split; [exact Hout|].
    apply He. apply Forall_forall. intros s _. eexists.
    apply line_to_canonical_OK.
Defined.

(** ** Ascending groups *)

Lemma StronglySorted_seq (s k : nat) : StronglySorted lt (seq s k).
Proof.
  revert s. induction k as [|k IH]; intros s; cbn [seq]; constructor.
  - apply IH.
  - apply Forall_forall. intros j Hj%elem_of_seq. lia.
Qed.

Lemma StronglySorted_filter {A : Type} (R : relation A) (P : A → Prop)
    `{!∀ x, Decision (P x)} (l : list A) :
  StronglySorted R l → StronglySorted R (filter P l).
Proof.
  induction 1 as [|x l Hl IH Hx]; [constructor|].
  rewrite filter_cons. case_decide; [|done].
  constructor; [done|]. apply Forall_forall.
  intros y [_ Hy]%list_elem_of_filter. by eapply Forall_forall.
Qed.

Lemma concat_take_mono {A : Type} (gs : list (list A)) (a b : nat) (k : A) :
  (a ≤ b)%nat → k ∈ concat (take a gs) → k ∈ concat (take b gs).
Proof.
  intros Hab. rewrite !elem_of_concat. intros (g & Hg & Hk).
  exists g. split; [|done].
  apply list_elem_of_lookup in Hg as [p Hp].
  pose proof (lookup_lt_Some _ _ _ Hp) as Hlt. rewrite length_take in Hlt.
  rewrite lookup_take_lt in Hp by lia.
  apply list_elem_of_lookup. exists p. rewrite lookup_take_lt by lia. done.
Qed.

Lemma concat_take_member {A : Type} (gs : list (list A)) (a b : nat)
    (g : list A) (k : A) :
  gs !! a = Some g → (a < b)%nat → k ∈ g → k ∈ concat (take b gs).
Proof.
  intros Ha Hab Hk. apply elem_of_concat. exists g. split; [|done].
  apply list_elem_of_lookup. exists a. by rewrite lookup_take_lt.
Qed.

Section founded_facts.
Context (dm : matrix) (thr : xreal) (n : nat) (groups : list (list nat)).
Hypothesis Hfounded :
  ∀ a g, groups !! a = Some g → founded dm thr n (take a groups) g.

(** A group is its founder followed by larger indices in ascending order,
    each of them near the founder. *)
Lemma founded_group (a : nat) (g : list nat) :
  groups !! a = Some g →
  ∃ f rest, g = f :: rest ∧ (f < n)%nat
    ∧ StronglySorted lt (f :: rest)
    ∧ Forall (λ j, (j < n)%nat ∧ near dm thr f j) rest.
Proof.
  intros Hg. destruct (Hfounded a g Hg) as (f & Hf & Hnew & Hbelow & ->).
  eexists f, _. split; [done|]. split; [done|].
  assert (Hj : ∀ j, j ∈ joiners dm thr f (f :: concat (take a groups))
                          (seq 0 n) →
                    (f < j < n)%nat ∧ near dm thr f j).
  { intros j. unfold joiners.
    rewrite list_elem_of_filter, elem_of_seq, not_elem_of_cons.
    intros [[[Hne Hnotin] Hnear] Hlt]. split; [|done].
    destruct (decide (j < f)%nat) as [Hlow|]; [|lia].
    by apply Hbelow in Hlow. }
  split.
  - constructor; [apply StronglySorted_filter, StronglySorted_seq|].
    apply Forall_forall. intros j Hjin. apply Hj in Hjin. lia.
  - apply Forall_forall. intros j Hjin. apply Hj in Hjin.
    split; [lia|tauto].
Qed.

(** A later group has a larger founder, and that founder is not near the
    founder of any earlier group. *)
Lemma founded_founders (a b : nat) (ga gb : list nat) (fa fb : nat) :
  (a < b)%nat → groups !! a = Some ga → groups !! b = Some gb →
  head ga = Some fa → head gb = Some fb →
  (fa < fb)%nat ∧ ¬ near dm thr fa fb.
Proof.
  intros Hab Ha Hb Hfa Hfb.
  destruct (Hfounded a ga Ha) as (f & Hf & Hnew & Hbelow & ->).
  destruct (Hfounded b gb Hb) as (f' & Hf' & Hnew' & Hbelow' & ->).
  cbn in Hfa, Hfb. simplify_eq.
  assert (Hin : fa ∈ concat (take b groups)).
  { apply (concat_take_member groups a b _ fa Ha Hab). by left. }
  assert (Hlt : (fa < fb)%nat).
  { destruct (decide (fa = fb)) as [->|]; [exfalso; by apply Hnew'|].
    destruct (decide (fb < fa)%nat) as [Hlow|]; [|lia].
    exfalso. apply Hnew'. eapply concat_take_mono; [|by apply Hbelow].
    lia. }
  split; [done|]. intros Hnear. apply Hnew'.
  apply (concat_take_member groups a b _ fb Ha Hab). right. unfold joiners.
  rewrite list_elem_of_filter, elem_of_seq, not_elem_of_cons.
  split; [|lia]. split; [|done]. split; [lia|].
  intros Hc. apply Hnew'. eapply concat_take_mono; [|done]. lia.
Qed.
End founded_facts.

Lemma find_similar_lines_founded (lines : list segment) (thr : xreal)
    (m : string) (groups : list (list nat)) :
  find_similar_lines lines thr m = OK groups →
  ∃ dm, calculate_line_distances lines m = OK dm
    ∧ NoDup (concat groups)
    ∧ (∀ k, k ∈ concat groups ↔ (k < length lines)%nat)
    ∧ ∀ a g, groups !! a = Some g →
        founded dm thr (length lines) (take a groups) g.
Proof.
  intros Hgroups. pose proof (find_similar_lines_grouped lines thr m) as Hg.
  destruct (calculate_line_distances lines m) as [dm|e]; [|congruence].
  destruct Hg as (visited & groups' & Hgroups' & Hinv).
  assert (groups' = groups) as -> by congruence.
  destruct Hinv as (_ & Hnd & Hlt & Hall & Hf).
  exists dm. split; [done|]. split; [done|]. split; [|done].
  intros k. split; [apply Hlt|apply Hall].
Qed.

Lemma near_symmetric (lines : list segment) (m : string) (dm : matrix)
    (thr : xreal) (i j : nat) :
  calculate_line_distances lines m = OK dm →
  (i < length lines)%nat → (j < length lines)%nat →
  near dm thr i j = near dm thr j i.
Proof.
  intros Hdm Hi Hj.
  destruct (calculate_line_distances_entries _ _ _ Hdm) as [Hsq Hent].
  assert (Hsym : entry dm i j = entry dm j i).
  { rewrite !Hent by done. repeat case_decide; try lia; done. }
  destruct (mat_get_in_range _ _ i j Hsq Hi Hj) as [d Hd].
  unfold near. rewrite Hd. apply mat_get_entry in Hd.
  rewrite Hsym in Hd. apply mat_get_entry in Hd. by rewrite Hd.
Qed.

(** X14.  Every group is strictly ascending, so its founder is its least member;
    the founders ascend from group to group, and the first group starts at
    index 0. *)
Theorem find_similar_lines_ascending (lines : list segment) (thr : xreal)
    (m : string) (groups : list (list nat)) :
  find_similar_lines lines thr m = OK groups →
  Forall (StronglySorted lt) groups
  ∧ (∀ a b ga gb fa fb, (a < b)%nat →
       groups !! a = Some ga → groups !! b = Some gb →
       head ga = Some fa → head gb = Some fb → (fa < fb)%nat)
  ∧ (lines ≠ [] → ∃ g rest, groups = (0%nat :: g) :: rest).
Proof.
  intros Hgroups.
  destruct (find_similar_lines_founded _ _ _ _ Hgroups)
    as (dm & _ & _ & Hcover & Hf).
  split; [|split].
  - apply Forall_forall. intros g Hg.
    apply list_elem_of_lookup in Hg as [a Ha].
    by destruct (founded_group dm thr _ groups Hf a g Ha)
      as (f & rest & -> & _ & Hs & _).
  - intros a b ga gb fa fb Hab Ha Hb Hfa Hfb.
    by destruct (founded_founders dm thr _ groups Hf a b ga gb fa fb).
  - intros Hne.
    assert (Hlen : (0 < length lines)%nat).
    { destruct lines; [done|cbn; lia]. }
    destruct groups as [|g0 rest].
    { apply Hcover in Hlen. by apply elem_of_nil in Hlen. }
    destruct (Hf 0%nat g0) as (f & _ & _ & Hbelow & ->); [done|].
    destruct f as [|f]; [eauto|].
    specialize (Hbelow 0%nat). cbn in Hbelow.
    exfalso. eapply elem_of_nil, Hbelow. lia.
Qed.

Lemma find_similar_lines_ascending_witness :
  Forall (StronglySorted lt) [[0; 1]; [2]]%nat
  ∧ ∃ g rest, [[0; 1]; [2]]%nat = (0%nat :: g) :: rest.
Proof.
  destruct (find_similar_lines_ascending example_lines (Fin 2) "parallel"
              _ example_groups) as (Hsorted & _ & Hfirst).
  split; [done|]. by apply Hfirst.
Defined.

Lemma founders_apart (lines : list segment) (thr : xreal) (m : string)
    (dm : matrix) (groups : list (list nat)) :
  calculate_line_distances lines m = OK dm →
  (∀ a g, groups !! a = Some g →
          founded dm thr (length lines) (take a groups) g) →
  ∀ a b ga gb fa fb, a ≠ b →
    groups !! a = Some ga → groups !! b = Some gb →
    head ga = Some fa → head gb = Some fb →
    ¬ near dm thr fa fb.
Proof.
  intros Hdm Hf a b ga gb fa fb Hab Ha Hb Hfa Hfb.
  assert (Hlt : ∀ c gc fc, groups !! c = Some gc → head gc = Some fc →
                           (fc < length lines)%nat).
  { intros c gc fc Hc Hfc.
    destruct (founded_group dm thr _ groups Hf c gc Hc)
      as (f' & rest & -> & ? & _). cbn in Hfc. by simplify_eq. }
  destruct (decide (a < b)%nat).
  - by destruct (founded_founders dm thr _ groups Hf a b ga gb fa fb).
  - rewrite (near_symmetric lines m dm thr fa fb Hdm) by eauto.
    destruct (founded_founders dm thr _ groups Hf b a gb ga fb fa);
      [lia|done..].
Qed.

(** X15.  Every member of a group is within the threshold of its founder, and
    the founders of two different groups are not within the threshold of
    each other, in either order. *)
Theorem find_similar_lines_separates (lines : list segment) (thr : xreal)
    (m : string) (groups : list (list nat)) :
  find_similar_lines lines thr m = OK groups →
  ∃ dm, calculate_line_distances lines m = OK dm
    ∧ (∀ g f j, g ∈ groups → head g = Some f → j ∈ g → j ≠ f →
                near dm thr f j)
    ∧ (∀ a b ga gb fa fb, a ≠ b →
         groups !! a = Some ga → groups !! b = Some gb →
         head ga = Some fa → head gb = Some fb →
         ¬ near dm thr fa fb).
Proof.
  intros Hgroups.
  destruct (find_similar_lines_founded _ _ _ _ Hgroups)
    as (dm & Hdm & _ & Hcover & Hf).
  exists dm. split; [done|]. split.
  - intros g f j Hg Hhead Hj Hne.
    apply list_elem_of_lookup in Hg as [a Ha].
    destruct (founded_group dm thr _ groups Hf a g Ha)
      as (f' & rest & -> & _ & _ & Hnear).
    cbn in Hhead. simplify_eq.
    apply elem_of_cons in Hj as [->|Hj]; [done|].
    rewrite Forall_forall in Hnear. by apply Hnear.
  - by apply (founders_apart lines thr m).
Qed.

Lemma find_similar_lines_separates_witness :
  ∃ dm, calculate_line_distances example_lines "parallel" = OK dm
        ∧ near dm (Fin 2) 0 1 ∧ ¬ near dm (Fin 2) 0 2 ∧ ¬ near dm (Fin 2) 2 0.
Proof.
  destruct (find_similar_lines_separates example_lines (Fin 2) "parallel"
              _ example_groups) as (dm & Hdm & Hnear & Hfar).
  exists dm. split; [done|]. split; [|split].
  - apply (Hnear [0; 1]%nat); [by left|done|by right; left|done].
  - by apply (Hfar 0 1 [0; 1] [2])%nat.
  - by apply (Hfar 1 0 [2] [0; 1])%nat.
Defined.

(** ** The size, the order and the content of the reduction *)

Lemma remove_similar_lines_inv (lines : list segment) (thr : xreal)
    (m : string) (keep_longest : bool) (out : list segment) :
  remove_similar_lines lines thr m keep_longest = OK out →
  ∃ groups, find_similar_lines lines thr m = OK groups
    ∧ Forall2 (representative lines keep_longest) groups out.
Proof.
  rewrite remove_similar_lines_eq.
  destruct (find_similar_lines lines thr m) as [groups|e] eqn:Hgroups;
    [|done].
  rewrite bind_OK.
  destruct (keep_all_spec lines keep_longest groups []
              (find_similar_lines_in_range _ _ _ _ Hgroups))
    as (reps & -> & Hall & _).
  intros [= <-]. eauto.
Qed.

Lemma length_concat_nonempty {A : Type} (gs : list (list A)) :
  Forall (λ g, g ≠ []) gs → (length gs ≤ length (concat gs))%nat.
Proof.
  induction 1 as [|g gs Hg _ IH]; [done|].
  cbn [concat length]. rewrite length_app.
  destruct g; [done|]. cbn. lia.
Qed.

(** X16.  The group sizes add up to N, so there are at most N groups, and at
    least one when the input is not empty; the reduction returns as many
    segments as there are groups. *)
Theorem remove_similar_lines_size (lines : list segment) (thr : xreal)
    (m : string) (keep_longest : bool) (out : list segment) :
  remove_similar_lines lines thr m keep_longest = OK out →
  (length out ≤ length lines)%nat
  ∧ (lines ≠ [] → out ≠ [])
  ∧ ∃ groups, find_similar_lines lines thr m = OK groups
      ∧ length (concat groups) = length lines
      ∧ length out = length groups.
Proof.
  intros Hout.
  destruct (remove_similar_lines_inv _ _ _ _ _ Hout) as (groups & Hg & Hrep).
  destruct (find_similar_lines_founded _ _ _ _ Hg)
    as (dm & _ & Hnd & Hcover & _).
  pose proof (find_similar_lines_in_range _ _ _ _ Hg) as Hrange.
  assert (Hsum : length (concat groups) = length lines).
  { transitivity (length (seq 0 (length lines))); [|apply length_seq].
    apply Permutation_length.
    apply NoDup_Permutation; [done|apply NoDup_seq|].
    intros k. rewrite Hcover, elem_of_seq. lia. }
  assert (Hlen : length out = length groups).
  { symmetry. by eapply Forall2_length. }
  assert (Hle : (length groups ≤ length (concat groups))%nat).
  { apply length_concat_nonempty. eapply Forall_impl; [done|]. by intros g []. }
  split; [lia|]. split; [|eauto].
  intros Hne ->. cbn in Hlen. destruct groups; [|done].
  cbn in Hsum. destruct lines; done.
Qed.

Lemma remove_similar_lines_size_witness :
  (length [(0, 1, 3, 1); (0, 9, 1, 9)] ≤ length example_lines)%nat
  ∧ [(0, 1, 3, 1); (0, 9, 1, 9)] ≠ ([] : list segment).
Proof.
  destruct (remove_similar_lines_size example_lines (Fin 2) "parallel" true
              _ example_keep_longest) as (Hle & Hne & _).
  split; [done|]. by apply Hne.
Defined.

Lemma StronglySorted_lookup (l : list nat) :
  (∀ a b x y, (a < b)%nat → l !! a = Some x → l !! b = Some y → (x < y)%nat) →
  StronglySorted lt l.
Proof.
  induction l as [|x l IH]; intros Hl; constructor.
  - apply IH. intros a b u v Hab Ha Hb. by apply (Hl (S a) (S b)); [lia|..].
  - apply Forall_forall. intros y Hy.
    apply list_elem_of_lookup in Hy as [p Hp].
    by apply (Hl 0%nat (S p)); [lia|..].
Qed.



Lemma representative_founders (lines : list segment)
    (groups : list (list nat)) (out : list segment) :
  Forall2 (representative lines false) groups out →
  ∃ founders, Forall2 (λ g f, head g = Some f) groups founders
              ∧ Forall2 (λ f r, lines !! f = Some r) founders out.
Proof.
  induction 1 as [|g r groups out (f & Hf & Hr) _ (founders & Hh & Hl)].
  - exists []. split; constructor.
  - exists (f :: founders). split; by constructor.
Qed.

(** The founders behind the output of a keep-first reduction. *)
Lemma keep_first_founders (lines : list segment) (thr : xreal) (m : string)
    (out : list segment) :
  remove_similar_lines lines thr m false = OK out →
  ∃ dm founders,
    calculate_line_distances lines m = OK dm
    ∧ Forall2 (λ f r, lines !! f = Some r) founders out
    ∧ StronglySorted lt founders
    ∧ ∀ a b fa fb, a ≠ b →
        founders !! a = Some fa → founders !! b = Some fb →
        ¬ near dm thr fa fb.
Proof.
  intros Hout.
  destruct (remove_similar_lines_inv _ _ _ _ _ Hout) as (groups & Hg & Hrep).
  destruct (representative_founders _ _ _ Hrep) as (founders & Hheads & Hl).
  destruct (find_similar_lines_founded _ _ _ _ Hg)
    as (dm & Hdm & _ & _ & Hf).
  assert (Hhead : ∀ a fa, founders !! a = Some fa →
                    ∃ ga, groups !! a = Some ga ∧ head ga = Some fa).
  { intros a fa Ha.
    destruct (Forall2_lookup_r _ _ _ _ _ Hheads Ha) as (ga & ? & ?). eauto. }
  exists dm, founders. split; [done|]. split; [done|]. split.
  - apply StronglySorted_lookup. intros a b fa fb Hab Ha Hb.
    destruct (Hhead a fa Ha) as (ga & Hga & Hfa).
    destruct (Hhead b fb Hb) as (gb & Hgb & Hfb).
    by destruct (founded_founders dm thr _ groups Hf a b ga gb fa fb).
  - intros a b fa fb Hab Ha Hb.
    destruct (Hhead a fa Ha) as (ga & Hga & Hfa).
    destruct (Hhead b fb Hb) as (gb & Hgb & Hfb).
    by apply (founders_apart lines thr m dm groups Hdm Hf a b ga gb).
Qed.



(** One index out of each of several pairwise disjoint groups: no index
    comes twice. *)
Lemma NoDup_one_of_each (groups : list (list nat)) (idx : list nat) :
  NoDup (concat groups) → Forall2 (λ g i, i ∈ g) groups idx → NoDup idx.
Proof.
  intros Hnd Hidx. induction Hidx as [|g i groups idx Hi Hidx IH].
  - constructor.
  - cbn [concat] in Hnd. apply NoDup_app in Hnd as (_ & Hdis & Hnd).
    constructor; [|by apply IH].
    intros Hin. apply (Hdis i Hi).
    apply list_elem_of_lookup in Hin as [a Ha].
    destruct (Forall2_lookup_r _ _ _ _ _ Hidx Ha) as (ga & Hga & Hia).
    apply elem_of_concat. exists ga. split; [|done].
    by eapply list_elem_of_lookup_2.
Qed.

(** The elements at distinct positions of a list, in any order, form a
    sub-multiset of it. *)
Lemma lookup_NoDup_submseteq {A : Type} (l : list A) (idx : list nat)
    (xs : list A) :
  NoDup idx → Forall2 (λ i x, l !! i = Some x) idx xs → xs ⊆+ l.
Proof.
  intros Hnd Hxs. destruct xs as [|x0 xs0] eqn:Hxs0.
  { apply submseteq_nil_l. }
  rewrite <- Hxs0 in *. clear Hxs0 xs0.
  set (f := λ i : nat, default x0 (l !! i)).
  assert (xs = f <$> idx) as ->.
  { clear Hnd. induction Hxs as [|i x idx xs Hx _ IH]; [done|].
    cbn [fmap list_fmap]. f_equal; [|done]. unfold f. by rewrite Hx. }
  assert (Hl : l = f <$> seq 0 (length l)).
  { apply list_eq. intros i. rewrite list_lookup_fmap.
    destruct (l !! i) as [x|] eqn:Hx.
    - rewrite lookup_seq_lt by (by eapply lookup_lt_Some).
      cbn. unfold f. by rewrite Hx.
    - apply lookup_ge_None in Hx. by rewrite lookup_seq_ge. }
  rewrite Hl. apply fmap_submseteq, NoDup_submseteq; [done|].
  intros i Hi. apply list_elem_of_lookup in Hi as [a Ha].
  destruct (Forall2_lookup_l _ _ _ _ _ Hxs Ha) as (x & _ & Hx).
  apply elem_of_seq. apply lookup_lt_Some in Hx. lia.
Qed.

Lemma representative_member (lines : list segment) (keep_longest : bool)
    (g : list nat) (r : segment) :
  representative lines keep_longest g r → ∃ i, i ∈ g ∧ lines !! i = Some r.
Proof.
  unfold representative. destruct keep_longest.
  - intros (pos & i & Hpos & Hr & _). exists i.
    split; [by eapply list_elem_of_lookup_2|done].
  - intros (i & Hh & Hr). exists i. split; [|done].
    destruct g as [|j g]; [done|]. injection Hh as ->. by left.
Qed.

Lemma representative_indices (lines : list segment) (keep_longest : bool)
    (groups : list (list nat)) (out : list segment) :
  Forall2 (representative lines keep_longest) groups out →
  ∃ idx, Forall2 (λ g i, i ∈ g) groups idx
         ∧ Forall2 (λ i r, lines !! i = Some r) idx out.
Proof.
  induction 1 as [|g r groups out Hr _ (idx & Hm & Hl)].
  - exists []. split; constructor.
  - destruct (representative_member _ _ _ _ Hr) as (i & Hi & Hli).
    exists (i :: idx). split; by constructor.
Qed.

(** X18.  The reduction only selects: with or without [keep_longest], its output
    is made of input segments taken at pairwise distinct positions, so no
    segment is invented and none comes out more often than it went in. *)
Theorem remove_similar_lines_selects (lines : list segment) (thr : xreal)
    (m : string) (keep_longest : bool) (out : list segment) :
  remove_similar_lines lines thr m keep_longest = OK out →
  out ⊆+ lines
  ∧ ∃ idx, NoDup idx ∧ Forall2 (λ i r, lines !! i = Some r) idx out.
Proof.
  intros Hout.
  destruct (remove_similar_lines_inv _ _ _ _ _ Hout) as (groups & Hg & Hrep).
  destruct (find_similar_lines_founded _ _ _ _ Hg) as (dm & _ & Hnd & _).
  destruct (representative_indices _ _ _ _ Hrep) as (idx & Hm & Hl).
  pose proof (NoDup_one_of_each _ _ Hnd Hm) as Hidx.
  split; [by apply (lookup_NoDup_submseteq lines idx out)|].
  by exists idx.
Qed.

Lemma remove_similar_lines_selects_witness :
  [(0, 1, 3, 1); (0, 9, 1, 9)] ⊆+ example_lines.
Proof.
  destruct (remove_similar_lines_selects example_lines (Fin 2) "parallel"
              true _ example_keep_longest) as [Hsub _].
  exact Hsub.
Defined.

(** ** Extreme thresholds *)

Lemma filter_none {A : Type} (P : A → Prop) `{!∀ x, Decision (P x)}
    (l : list A) :
  (∀ x, x ∈ l → ¬ P x) → filter P l = [].
Proof.
  induction l as [|x l IH]; intros Hl; [done|].
  rewrite filter_cons_False by (apply Hl; by left).
  apply IH. intros y Hy. apply Hl. by right.
Qed.


Section extreme_thresholds.
Context (dm : matrix) (thr : xreal) (n : nat).
Hypothesis Hsq : square n dm.

(** When no index is near any other, every index founds its own group. *)
Lemma group_loop_none_near_steps (k : nat) : ∀ s : nat,
  (∀ i j, (i < n)%nat → (j < n)%nat → i ≠ j → ¬ near dm thr i j) →
  (s + k ≤ n)%nat →
  for_in (seq s k)
    (list_to_set (seq 0 s) : gset nat, (λ i, [i]) <$> seq 0 s)
    (λ '(visited, groups) i,
       if decide (i ∈ visited) then OK (visited, groups)
       else
         let group := [i] in
         let visited := visited ∪ {[i]} in
         '(visited, group) ← grow_group dm thr n i visited group;
         OK (visited, groups ++ [group]))
  = OK (list_to_set (seq 0 (s + k)), (λ i, [i]) <$> seq 0 (s + k)).
Proof.
  induction k as [|k IH]; intros s Hfar Hk.
  - by rewrite Nat.add_0_r.
  - cbn [seq for_in].
    rewrite decide_False
      by (rewrite elem_of_list_to_set, elem_of_seq; lia).
    cbv zeta. rewrite (grow_group_spec dm thr n Hsq) by lia. cbv zeta.
    rewrite filter_none
      by (intros j Hj%elem_of_seq [Hj' Hnear]; apply (Hfar s j); [lia..| |done];
          intros <-; apply Hj'; set_unfold; tauto).
    rewrite !bind_OK.
    replace (list_to_set (seq 0 s) ∪ {[s]} ∪ list_to_set [])
      with (list_to_set (seq 0 (S s)) : gset nat).
    2:{ rewrite seq_S, list_to_set_app_L. cbn [list_to_set].
        by rewrite !union_empty_r_L. }
    replace (((λ i, [i]) <$> seq 0 s) ++ [[s] ++ []])
      with ((λ i : nat, [i]) <$> seq 0 (S s))
      by (by rewrite seq_S, fmap_app).
    rewrite IH by (done || lia). do 3 f_equal; f_equal; lia.
Qed.


End extreme_thresholds.

Lemma matrix_entry_value (lines : list segment) (m : string) (dm : matrix)
    (i j : nat) :
  valid_method m → calculate_line_distances lines m = OK dm →
  (i < length lines)%nat → (j < length lines)%nat →
  ∃ d, mat_get dm i j = OK d ∧ distance_value m d.
Proof.
  intros Hm Hdm Hi Hj.
  destruct (calculate_line_distances_entries _ _ _ Hdm) as [Hsq Hent].
  destruct (mat_get_in_range _ _ i j Hsq Hi Hj) as [d Hd].
  exists d. split; [done|]. apply mat_get_entry in Hd.
  rewrite Hent in Hd by done. repeat case_decide.
  - destruct (pair_distance lines m i j) eqn:Hp; [|done].
    injection Hd as ->. by eapply pair_distance_value.
  - destruct (pair_distance lines m j i) eqn:Hp; [|done].
    injection Hd as ->. by eapply pair_distance_value.
  - injection Hd as <-. simpl. lra.
Qed.

Lemma keep_one_singleton (lines : list segment) (keep_longest : bool)
    (acc : list segment) (i : nat) (x : segment) :
  lines !! i = Some x →
  keep_one lines keep_longest acc [i] = OK (acc ++ [x]).
Proof.
  intros Hx. unfold keep_one, getitem. destruct keep_longest.
  - cbn [mapM]. unfold getitem. rewrite Hx. monad_simpl.
    cbn [py_max_key]. by rewrite line_length_OK.
  - cbn [lookup list_lookup]. by rewrite bind_OK, Hx.
Qed.

Lemma keep_singletons (lines : list segment) (keep_longest : bool) (k : nat) :
  ∀ (s : nat) (acc : list segment),
  (s + k ≤ length lines)%nat →
  for_in ((λ i, [i]) <$> seq s k) acc (keep_one lines keep_longest)
  = OK (acc ++ take k (drop s lines)).
Proof.
  induction k as [|k IH]; intros s acc Hk.
  - cbn. by rewrite take_0, app_nil_r.
  - destruct (lookup_lt_is_Some_2 lines s) as [x Hx]; [lia|].
    cbn [seq fmap list_fmap for_in].
    rewrite (keep_one_singleton _ _ _ _ _ Hx), bind_OK.
    change (list_fmap nat (list nat) (λ i, [i]) (seq (S s) k))
      with ((λ i : nat, [i]) <$> seq (S s) k).
    rewrite IH by lia. rewrite (drop_S _ _ _ Hx). cbn [take].
    by rewrite <- app_assoc.
Qed.

(** When no two distinct segments are within the threshold of each other,
    every index is its own group and the reduction changes nothing. *)
Lemma no_near_keeps_all (lines : list segment) (thr : xreal) (m : string)
    (dm : matrix) :
  calculate_line_distances lines m = OK dm →
  (∀ i j, (i < length lines)%nat → (j < length lines)%nat → i ≠ j →
          ¬ near dm thr i j) →
  find_similar_lines lines thr m = OK ((λ i, [i]) <$> seq 0 (length lines))
  ∧ ∀ keep_longest, remove_similar_lines lines thr m keep_longest = OK lines.
Proof.
  intros Hdm Hfar.
  destruct (calculate_line_distances_entries _ _ _ Hdm) as [Hsq _].
  assert (Hg : find_similar_lines lines thr m
               = OK ((λ i, [i]) <$> seq 0 (length lines))).
  { rewrite find_similar_lines_eq, Hdm, bind_OK.
    unfold group_loop, range. rewrite Nat.sub_0_r.
    pose proof (group_loop_none_near_steps dm thr (length lines) Hsq
                  (length lines) 0%nat Hfar) as Hloop.
    cbn [seq list_to_set fmap list_fmap] in Hloop.
    rewrite Hloop by lia. done. }
  split; [done|]. intros keep_longest.
  rewrite remove_similar_lines_eq, Hg, bind_OK.
  rewrite keep_singletons by lia.
  by rewrite drop_0, firstn_all.
Qed.

(** X19.  With a negative threshold nothing is similar to anything: every index
    is its own group, in order, and the reduction returns the input
    unchanged, with or without [keep_longest]. *)
Theorem negative_threshold_keeps_all (lines : list segment) (t : R)
    (m : string) (dm : matrix) :
  valid_method m → t < 0 →
  calculate_line_distances lines m = OK dm →
  find_similar_lines lines (Fin t) m
    = OK ((λ i, [i]) <$> seq 0 (length lines))
  ∧ ∀ keep_longest,
      remove_similar_lines lines (Fin t) m keep_longest = OK lines.
Proof.
  intros Hm Ht Hdm. apply (no_near_keeps_all lines (Fin t) m dm Hdm).
  intros i j Hi Hj _.
  destruct (matrix_entry_value lines m dm i j Hm Hdm Hi Hj) as (d & Hd & Hv).
  unfold near. rewrite Hd. destruct d as [r|]; cbn [xle]; [|by intros []].
  cbn in Hv. rewrite bool_decide_eq_false_2 by lra. by intros [].
Qed.

Lemma negative_threshold_keeps_all_witness :
  find_similar_lines example_lines (Fin (-1)) "parallel"
    = OK [[0]; [1]; [2]]%nat
  ∧ remove_similar_lines example_lines (Fin (-1)) "parallel" true
    = OK example_lines.
Proof.
  destruct (negative_threshold_keeps_all example_lines (-1) "parallel"
              example_matrix) as [Hg Hout].
  - rewrite valid_method_cases. auto.
  - lra.
  - apply example_distance_matrix.
  - split; [exact Hg|apply Hout].
Defined.




(** ** A second pass *)

Lemma StronglySorted_lookup_lt (l : list nat) :
  StronglySorted lt l →
  ∀ a b x y, (a < b)%nat → l !! a = Some x → l !! b = Some y → (x < y)%nat.
Proof.
  induction 1 as [|x l _ IH Hx]; intros a b u v Hab Ha Hb; [done|].
  destruct b as [|b]; [lia|]. cbn in Hb. destruct a as [|a].
  - injection Ha as <-. rewrite Forall_forall in Hx.
    apply Hx. by eapply list_elem_of_lookup_2.
  - cbn in Ha. apply (IH a b); [lia|done..].
Qed.

(** The distance of a pair of kept segments is the distance the original
    list had at their founders. *)
Lemma pair_distance_sublist (lines out : list segment) (m : string)
    (a b fa fb : nat) (ra rb : segment) :
  lines !! fa = Some ra → lines !! fb = Some rb →
  out !! a = Some ra → out !! b = Some rb →
  pair_distance out m a b = pair_distance lines m fa fb.
Proof.
  intros Hfa Hfb Ha Hb.
  by rewrite (pair_distance_eq _ _ _ _ _ _ Ha Hb),
    (pair_distance_eq _ _ _ _ _ _ Hfa Hfb).
Qed.

(** X21.  Once reduced without [keep_longest], a list is stable: the kept
    segments are pairwise beyond the threshold, so a second pass with the
    same threshold and method, with or without [keep_longest], puts every
    one of them in a group of its own and returns the list unchanged. *)
Theorem remove_similar_lines_keep_first_stable (lines : list segment)
    (thr : xreal) (m : string) (out : list segment) :
  remove_similar_lines lines thr m false = OK out →
  find_similar_lines out thr m = OK ((λ i, [i]) <$> seq 0 (length out))
  ∧ ∀ keep_longest, remove_similar_lines out thr m keep_longest = OK out.
Proof.
  intros Hout.
  destruct (keep_first_founders _ _ _ _ Hout)
    as (dm & founders & Hdm & Hl & Hsorted & Hapart).
  pose proof (StronglySorted_lookup_lt _ Hsorted) as Hlt.
  assert (Hat : ∀ a, (a < length out)%nat →
            ∃ fa ra, founders !! a = Some fa ∧ out !! a = Some ra
                     ∧ lines !! fa = Some ra).
  { intros a Ha. destruct (lookup_lt_is_Some_2 out a Ha) as [ra Hra].
    destruct (Forall2_lookup_r _ _ _ _ _ Hl Hra) as (fa & Hfa & Hr). eauto. }
  pose proof (calculate_line_distances_pairs lines m) as Hpairs.
  rewrite Hdm in Hpairs.
  destruct (calculate_line_distances_entries _ _ _ Hdm) as [Hsq Hent].
  assert (Hpair : ∀ a b, (a < b < length out)%nat →
            ∃ fa fb d, founders !! a = Some fa ∧ founders !! b = Some fb
              ∧ (fa < fb < length lines)%nat
              ∧ pair_distance out m a b = OK d
              ∧ pair_distance lines m fa fb = OK d).
  { intros a b Hab.
    destruct (Hat a) as (fa & ra & Hfa & Hra & Hla); [lia|].
    destruct (Hat b) as (fb & rb & Hfb & Hrb & Hlb); [lia|].
    assert (fa < fb < length lines)%nat as Hf.
    { split; [apply (Hlt a b); [lia|done..]|by eapply lookup_lt_Some]. }
    destruct (Hpairs fa fb Hf) as [d Hd].
    exists fa, fb, d. repeat (split; [done || lia|]).
    split; [|done].
    by rewrite (pair_distance_sublist lines out m a b fa fb ra rb). }
  pose proof (calculate_line_distances_pairs out m) as Hpairs'.
  destruct (calculate_line_distances out m) as [dm'|e] eqn:Hdm'.
  2:{ destruct Hpairs' as (a & b & Hab & He).
      destruct (Hpair a b Hab) as (? & ? & d & _ & _ & _ & Hd & _).
      congruence. }
  apply (no_near_keeps_all out thr m dm' Hdm').
  destruct (calculate_line_distances_entries _ _ _ Hdm') as [Hsq' Hent'].
  assert (Hup : ∀ a b, (a < b < length out)%nat →
            ∃ fa fb d, founders !! a = Some fa ∧ founders !! b = Some fb
              ∧ mat_get dm' a b = OK d ∧ mat_get dm' b a = OK d
              ∧ mat_get dm fa fb = OK d ∧ mat_get dm fb fa = OK d).
  { intros a b Hab.
    destruct (Hpair a b Hab) as (fa & fb & d & Hfa & Hfb & Hf & Hd' & Hd).
    exists fa, fb, d. split; [done|]. split; [done|].
    rewrite !mat_get_entry, !Hent', !Hent by lia.
    rewrite !(decide_True (P := (a < b)%nat)) by lia.
    rewrite !(decide_False (P := (b < a)%nat)) by lia.
    rewrite !(decide_True (P := (fa < fb)%nat)) by lia.
    rewrite !(decide_False (P := (fb < fa)%nat)) by lia.
    by rewrite Hd, Hd'. }
  intros a b Ha Hb Hab Hnear.
  destruct (decide (a < b)%nat) as [Hlt'|Hge].
  - destruct (Hup a b) as (fa & fb & d & Hfa & Hfb & Hd' & _ & Hd & _); [lia|].
    apply (Hapart a b fa fb Hab Hfa Hfb).
    unfold near in *. by rewrite Hd' in Hnear; rewrite Hd.
  - destruct (Hup b a) as (fb & fa & d & Hfb & Hfa & _ & Hd' & _ & Hd); [lia|].
    apply (Hapart a b fa fb Hab Hfa Hfb).
    unfold near in *. by rewrite Hd' in Hnear; rewrite Hd.
Qed.

Lemma remove_similar_lines_keep_first_stable_witness :
  find_similar_lines [(0, 0, 1, 0); (0, 9, 1, 9)] (Fin 2) "parallel"
    = OK [[0]; [1]]%nat
  ∧ remove_similar_lines [(0, 0, 1, 0); (0, 9, 1, 9)] (Fin 2) "parallel" true
    = OK [(0, 0, 1, 0); (0, 9, 1, 9)].
Proof.
  destruct (remove_similar_lines_keep_first_stable example_lines (Fin 2)
              "parallel" _ example_keep_first) as [Hg Hout].
  split; [exact Hg|apply Hout].
Defined.
